(** * padasip adaptive filters: a shallow embedding

    The development follows [padasip/filters/base_filter.py] (classes
    [AdaptiveFilter] and [AdaptiveFilterAP]) and [padasip/filters/gngd.py]
    (class [FilterGNGD]).  Python objects are records, methods are
    computations in a state-and-exception monad over the object, and the
    numeric library is an interface ([Numeric]) so that every statement
    holds for whatever arithmetic implements it. *)

From Stdlib Require Import ZArith QArith Lia String.
From stdpp Require Import base list.

(** ** Python exceptions and results *)

Inductive exn : Type :=
| ValueError (msg : string)
| NameError (name : string)
| AttributeError (attr : string)
| IndexError
| TypeError
| LinAlgError.

Inductive result (A : Type) : Type :=
| Ok (a : A)
| Raise (e : exn).
Arguments Ok {A} a.
Arguments Raise {A} e.

(** The two messages [run] raises itself; the spec calls them
    DimensionMismatch and ConversionError. *)
Definition DimensionMismatch : exn :=
  ValueError "The length of vector d and matrix x must agree.".
Definition ConversionError : exn :=
  ValueError "Impossible to convert x or d to a numpy array".
Definition InvalidWeightSpec : exn :=
  ValueError "Impossible to understand the w".

Definition is_ok {A} (r : result A) : bool :=
  match r with Ok _ => true | Raise _ => false end.

(** ** Methods: state passing with exceptions

    A method body run on object state [S] yields the state it leaves behind
    (also when it raises: assignments made before the exception stay) and
    either a value or the exception. *)

Definition M (S A : Type) : Type := S → S * result A.

Definition ret {S A} (a : A) : M S A := λ s, (s, Ok a).
Definition raise {S A} (e : exn) : M S A := λ s, (s, Raise e).
Definition bind {S A B} (m : M S A) (k : A → M S B) : M S B :=
  λ s, match m s with
       | (s', Ok a) => k a s'
       | (s', Raise e) => (s', Raise e)
       end.
Definition get {S} : M S S := λ s, (s, Ok s).
Definition modify {S} (f : S → S) : M S unit := λ s, (f s, Ok tt).
Definition lift {S A} (r : result A) : M S A := λ s, (s, r).
Definition lift_opt {S A} (e : exn) (o : option A) : M S A :=
  λ s, (s, match o with Some a => Ok a | None => Raise e end).

Declare Scope py_scope.
Delimit Scope py_scope with py.
Notation "x <- c ;; k" := (bind c (λ x, k))
  (at level 100, c at next level, right associativity) : py_scope.
Notation "c ;;; k" := (bind c (λ _, k))
  (at level 100, right associativity) : py_scope.

Definition rbind {A B} (r : result A) (k : A → result B) : result B :=
  match r with Ok a => k a | Raise e => Raise e end.

(** ** The numeric library

    Scalars are whatever the arithmetic of the host offers (float64 in
    numpy); nothing below depends on its laws.  [linalg_solve] is
    [np.linalg.solve] and [random_normal] is [np.random.normal]: both are
    external to the repository. *)

Class Numeric (F : Type) : Type := {
  zero : F;
  one : F;
  add : F → F → F;
  sub : F → F → F;
  mul : F → F → F;
  div : F → F → F;
  eqb : F → F → bool;
  of_Z : Z → F;
  trunc : F → Z;
  linalg_solve : list (list F) → list (list F) → result (list (list F));
  random_normal : F → F → nat → list F
}.

(** One- and two-dimensional arrays, the latter as lists of rows. *)
Abbreviation vec F := (list F).
Abbreviation matrix F := (list (list F)).

Section Numpy.
Context {F : Type} `{Numeric F}.

(** A Python number: [int] or [float].  The constructors of the filters
    take either in every numeric position. *)
Inductive num : Type :=
| Int (z : Z)
| Float (r : F).

Definition val (a : num) : F :=
  match a with Int z => of_Z z | Float r => r end.

(** Python's [==] on numbers. *)
Definition num_eqb (a b : num) : bool :=
  match a, b with
  | Int x, Int y => Z.eqb x y
  | _, _ => eqb (val a) (val b)
  end.

(** A shape argument must be a non-negative [int]. *)
Definition as_size (n : num) : result nat :=
  match n with
  | Int z => if (z <? 0)%Z
             then Raise (ValueError "negative dimensions are not allowed")
             else Ok (Z.to_nat z)
  | Float _ => Raise TypeError
  end.

Definition zeros (k : nat) : vec F := replicate k zero.
Definition zeros2 (r c : nat) : matrix F := replicate r (zeros c).

Definition np_zeros (n : num) : result (vec F) :=
  rbind (as_size n) (λ k, Ok (zeros k)).

Definition np_random_normal (loc scale : F) (n : num) : result (vec F) :=
  rbind (as_size n) (λ k, Ok (random_normal loc scale k)).

Definition identity (k : nat) : matrix F :=
  (λ i, (λ j, if Nat.eqb i j then one else zero) <$> seq 0 k) <$> seq 0 k.

Definition vsum (v : vec F) : F := fold_left add v zero.
Definition vdot (u v : vec F) : F := vsum (zip_with mul u v).
Definition vadd (u v : vec F) : vec F := zip_with add u v.
Definition vsub (u v : vec F) : vec F := zip_with sub u v.
Definition scale (a : F) (v : vec F) : vec F := mul a <$> v.

Definition column (j : nat) (X : matrix F) : vec F :=
  (λ r, default zero (r !! j)) <$> X.
(** [X.T] for [X] with [c] columns. *)
Definition transpose (c : nat) (X : matrix F) : matrix F :=
  (λ j, column j X) <$> seq 0 c.
Definition matvec (A : matrix F) (v : vec F) : vec F := (λ r, vdot r v) <$> A.
(** [A · B] for [B] with [c] columns. *)
Definition matmul (c : nat) (A B : matrix F) : matrix F :=
  (λ r, (λ j, vdot r (column j B)) <$> seq 0 c) <$> A.
Definition madd (A B : matrix F) : matrix F := zip_with vadd A B.
Definition mscale (a : F) (A : matrix F) : matrix F := scale a <$> A.

Definition not_aligned : exn := ValueError "shapes not aligned".
Definition no_broadcast : exn :=
  ValueError "could not broadcast input array".

(** [np.dot] of two 1-d arrays. *)
Definition np_dot (u v : vec F) : result F :=
  if Nat.eqb (length u) (length v) then Ok (vdot u v)
  else Raise not_aligned.

(** [np.dot] of a 2-d array with [c] columns and a 1-d array. *)
Definition np_dot_mv (c : nat) (A : matrix F) (v : vec F) : result (vec F) :=
  if Nat.eqb c (length v) then Ok (matvec A v) else Raise not_aligned.

(** Assignment of a 1-d array into a slot of [k] cells: numpy broadcasts a
    one-element array and refuses any other length mismatch. *)
Definition broadcast_to (k : nat) (v : vec F) : result (vec F) :=
  if Nat.eqb (length v) k then Ok v
  else match v with
       | [a] => Ok (replicate k a)
       | _ => Raise no_broadcast
       end.

(** [u += v] on 1-d arrays. *)
Definition np_iadd (u v : vec F) : result (vec F) :=
  rbind (broadcast_to (length u) v) (λ v', Ok (vadd u v')).

(** [np.array(x)] for a list of rows: a ragged list is refused (numpy
    1.24 and later). *)
Definition rectangular (x : list (list F)) : bool :=
  match x with
  | [] => true
  | r :: x' => forallb (λ r', Nat.eqb (length r') (length r)) x'
  end.
Definition np_array2 (x : list (list F)) : result (matrix F) :=
  if rectangular x then Ok x
  else Raise (ValueError "inhomogeneous shape").

(** Python slices [l[:k]] and [l[k:]] with a possibly negative bound. *)
Definition slice_index {A} (k : Z) (l : list A) : nat :=
  let len := Z.of_nat (length l) in
  Z.to_nat (Z.min len (if (k <? 0)%Z then Z.max 0 (len + k) else k)).
Definition slice_to {A} (k : Z) (l : list A) : list A :=
  take (slice_index k l) l.
Definition slice_from {A} (k : Z) (l : list A) : list A :=
  drop (slice_index k l) l.

(** [a[1:] = a[:-1]] on one axis: cell 0 keeps its value, every other
    cell takes its left neighbour's. *)
Definition shift_right {A} (r : list A) : list A :=
  take 1 r ++ take (length r - 1) r.
End Numpy.

Arguments num F : clear implicits.

(** ** class AdaptiveFilter (base_filter.py, lines 10-196) *)

Module AdaptiveFilter.
Local Open Scope py_scope.

Section Class.
Context {F : Type} `{Numeric F}.

(** The [w] argument of the constructor: a string, a sequence of numbers,
    or a sequence of [len] items that are not all numbers (a word, [None]
    or a nested list among them). *)
Inductive weight_spec : Type :=
| WStr (s : string)
| WSeq (l : list F)
| WOther (len : nat).

(** [len(w)] *)
Definition py_len (w : weight_spec) : nat :=
  match w with
  | WStr s => String.length s
  | WSeq l => length l
  | WOther len => len
  end.

(** [np.array(w, dtype="float64")]: it raises when an item is no
    number. *)
Definition np_array_float64 (w : weight_spec) : result (vec F) :=
  match w with
  | WSeq l => Ok l
  | WStr _ | WOther _ => Raise (ValueError "could not convert string to float")
  end.

(** An instance: the four attributes [__init__] sets, and the attributes
    [R] a subclass adds.  [w_history] starts as [False] ([None]). *)
Record self (R : Type) : Type := Self {
  w : vec F;
  n : num F;
  w_history : option (matrix F);
  mu : num F;
  ext : R
}.
Arguments Self {R}.
Arguments w {R}.
Arguments n {R}.
Arguments w_history {R}.
Arguments mu {R}.
Arguments ext {R}.

Definition set_w {R} (v : vec F) (s : self R) : self R :=
  Self v (n s) (w_history s) (mu s) (ext s).
Definition set_n {R} (k : num F) (s : self R) : self R :=
  Self (w s) k (w_history s) (mu s) (ext s).
Definition set_w_history {R} (h : option (matrix F)) (s : self R) : self R :=
  Self (w s) (n s) h (mu s) (ext s).
Definition set_ext {R R'} (r : R') (s : self R) : self R' :=
  Self (w s) (n s) (w_history s) (mu s) r.

(** [init_weights(w, n=-1)].  [self_n] is the attribute [self.n] when it
    is already set; [__init__] calls this method before setting it. *)
Definition init_weights (self_n : option (num F)) (w : weight_spec)
    (n : num F) : result (vec F) :=
  rbind (if num_eqb n (Int (-1))
         then match self_n with
              | Some m => Ok m
              | None => Raise (AttributeError "n")
              end
         else Ok n)
    (λ n,
      match w with
      | WStr s =>
          if String.eqb s "random"
          then np_random_normal zero (div one (add one one)) n
          else if String.eqb s "zeros" then np_zeros n
          else Raise InvalidWeightSpec
      | _ =>
          if num_eqb (Int (Z.of_nat (py_len w))) n
          then match np_array_float64 w with (* try ... except *)
               | Ok a => Ok a
               | Raise _ => Raise InvalidWeightSpec
               end
          else Raise InvalidWeightSpec
      end).

(** [__init__(self, mu, n, w="random")]: the parameters in the order of
    the signature. *)
Definition init (mu n : num F) (w : weight_spec) : result (self unit) :=
  rbind (init_weights None w n) (λ w', Ok (Self w' n None mu tt)).

Section Methods.
Context {R : Type}.

(** [predict(x)] *)
Definition predict (x : vec F) : M (self R) F :=
  s <- get ;; lift (np_dot (w s) x).

(** The names bound at module level in base_filter.py: two imports and
    two classes. *)
Definition module_globals : list string :=
  ["np"; "get_mean_error"; "AdaptiveFilter"; "AdaptiveFilterAP"]%string.

(** A call [name(self, e, x)] of a bare name: Python looks the name up
    among the module's globals (no local of that name exists); none of
    the names bound there is a function of a filter, an error and an
    input. *)
Definition call_global (name : string) (e : F) (x : vec F)
    : M (self R) (vec F) :=
  if existsb (String.eqb name) module_globals
  then raise TypeError
  else raise (NameError name).

(** [adapt(d, x)] *)
Definition adapt (d : F) (x : vec F) : M (self R) unit :=
  (y <- predict x ;;
   let e := sub d y in
   s <- get ;;
   delta <- call_global "learning_rule" e x ;;
   w' <- lift (np_iadd (w s) delta) ;;
   modify (set_w w'))%py.

(** What [self.learning_rule] resolves to on the instance's class:
    [AdaptiveFilter] has no such method, a subclass may define it. *)
Variable learning_rule : option (F → vec F → M (self R) (vec F)).

Definition call_learning_rule (e : F) (x : vec F) : M (self R) (vec F) :=
  match learning_rule with
  | Some rule => rule e x
  | None => raise (AttributeError "learning_rule")
  end.

(** One pass of the adaptation loop of [run], at index [k].  Its value
    is [y[k]], [e[k]] and the delta the learning rule returned. *)
Definition run_body (d : vec F) (x : matrix F) (k : nat)
    : M (self R) (F * F * vec F) :=
  (s <- get ;;
   h <- lift_opt TypeError (w_history s) ;;
   row <- lift_opt IndexError (h !! k) ;;
   r <- lift (broadcast_to (length row) (w s)) ;;
   modify (set_w_history (Some (<[k := r]> h))) ;;;
   xk <- lift_opt IndexError (x !! k) ;;
   yk <- predict xk ;;
   dk <- lift_opt IndexError (d !! k) ;;
   let ek := sub dk yk in
   s1 <- get ;;
   delta <- call_learning_rule ek xk ;;
   w' <- lift (np_iadd (w s1) delta) ;;
   modify (set_w w') ;;;
   ret (yk, ek, delta))%py.

(** [for k in range(N)], with the local arrays [y] and [e]. *)
Fixpoint run_loop (d : vec F) (x : matrix F) (ks : list nat)
    (y e : vec F) : M (self R) (vec F * vec F) :=
  match ks with
  | [] => ret (y, e)
  | k :: ks' =>
      (r <- run_body d x k ;;
       run_loop d x ks' (<[k := r.1.1]> y) (<[k := r.1.2]> e))%py
  end.

(** [run(d, x)] *)
Definition run (d : vec F) (x : list (list F))
    : M (self R) (vec F * vec F * matrix F) :=
  let N := length x in
  if negb (Nat.eqb (length d) N) then raise DimensionMismatch
  else
    (x0 <- lift_opt IndexError (x !! 0) ;;
     modify (set_n (Int (Z.of_nat (length x0)))) ;;;
     xa <- lift (match np_array2 x with
                 | Ok a => Ok a
                 | Raise _ => Raise ConversionError
                 end) ;;
     s <- get ;;
     c <- lift (as_size (n s)) ;;
     modify (set_w_history (Some (zeros2 N c))) ;;;
     ye <- run_loop d xa (seq 0 N) (zeros N) (zeros N) ;;
     s' <- get ;;
     h <- lift_opt TypeError (w_history s') ;;
     ret (ye.1, ye.2, h))%py.
End Methods.

(** [pretrained_run(d, x, ntrain=0.5, epochs=1)]; [run] is the method the
    instance's class resolves [self.run] to. *)
Fixpoint repeat_m {S A} (k : nat) (m : M S A) : M S unit :=
  match k with
  | O => ret tt
  | S k' => (m ;;; repeat_m k' m)%py
  end.

Definition pretrained_run {R A}
    (run : vec F → list (list F) → M (self R) A)
    (d : vec F) (x : list (list F)) (ntrain : F) (epochs : Z)
    : M (self R) A :=
  let Ntrain := trunc (mul (of_Z (Z.of_nat (length d))) ntrain) in
  (repeat_m (Z.to_nat epochs) (run (slice_to Ntrain d) (slice_to Ntrain x)) ;;;
   r <- run (slice_from Ntrain d) (slice_from Ntrain x) ;;
   ret r)%py.
End Class.

Arguments self F R : clear implicits.
Arguments weight_spec F : clear implicits.
Arguments Self {F R}.
Arguments w {F R}.
Arguments n {F R}.
Arguments w_history {F R}.
Arguments mu {F R}.
Arguments ext {F R}.
End AdaptiveFilter.

(** ** class FilterGNGD(AdaptiveFilter) (gngd.py, lines 106-138) *)

Module FilterGNGD.
Import AdaptiveFilter.
Local Open Scope py_scope.

Section Class.
Context {F : Type} `{Numeric F}.

(** The attributes the subclass adds. *)
Record fields : Type := Fields {
  eps : F;
  ro : F;
  last_e : F;
  last_x : vec F
}.

Definition obj : Type := self F fields.

Definition set_eps (a : F) (s : obj) : obj :=
  set_ext (Fields a (ro (ext s)) (last_e (ext s)) (last_x (ext s))) s.
Definition set_last (e : F) (x : vec F) (s : obj) : obj :=
  set_ext (Fields (eps (ext s)) (ro (ext s)) e x) s.

(** [__init__(self, n, mu=1., eps=1., ro=0.1, **kwargs)].  [kwargs] can
    only carry [w].  The call [super().__init__(n, mu, **kwargs)] is
    positional: [n] lands in the first parameter of
    [AdaptiveFilter.__init__] and [mu] in the second. *)
Definition init (n mu : num F) (eps ro : F) (kwargs : option (weight_spec F))
    : result obj :=
  rbind (AdaptiveFilter.init n mu (default (WStr "random") kwargs)) (λ b,
  rbind (np_zeros n) (λ lx,
  Ok (set_ext (Fields eps ro zero lx) b))).

(** [learning_rule(self, e, x)] *)
Definition learning_rule (e : F) (x : vec F) : M obj (vec F) :=
  s <- get ;;
  let r := ext s in
  xlx <- lift (np_dot x (last_x r)) ;;
  lxlx <- lift (np_dot (last_x r) (last_x r)) ;;
  let den := add lxlx (eps r) in
  let eps' :=
    sub (eps r)
        (div (mul (mul (mul (mul (ro r) (val (mu s))) e) (last_e r)) xlx)
             (mul den den)) in
  modify (set_eps eps') ;;;
  xx <- lift (np_dot x x) ;;
  let nu := div (val (mu s)) (add eps' xx) in
  modify (set_last e x) ;;;
  ret (scale (mul nu e) x).

(** The inherited methods, on this class. *)
Definition adapt : F → vec F → M obj unit := AdaptiveFilter.adapt.
Definition run : vec F → list (list F) → M obj (vec F * vec F * matrix F) :=
  AdaptiveFilter.run (Some learning_rule).
Definition pretrained_run
    : vec F → list (list F) → F → Z → M obj (vec F * vec F * matrix F) :=
  AdaptiveFilter.pretrained_run run.
End Class.

Arguments fields F : clear implicits.
Arguments obj F : clear implicits.
End FilterGNGD.

(** ** class AdaptiveFilterAP(AdaptiveFilter) (base_filter.py, lines 199-299) *)

Module AdaptiveFilterAP.
Import AdaptiveFilter.
Local Open Scope py_scope.

Section Class.
Context {F : Type} `{Numeric F}.

(** The attributes the subclass adds.  [x_mem] is a list of [n] rows of
    [order] cells; [y_mem] and [e_mem] start as [False] ([None]). *)
Record fields : Type := Fields {
  order : nat;
  eps : F;
  x_mem : matrix F;
  d_mem : vec F;
  ide_eps : matrix F;
  ide : matrix F;
  y_mem : option (vec F);
  e_mem : option (vec F)
}.

Definition obj : Type := self F fields.

Definition set_x_mem (X : matrix F) (s : obj) : obj :=
  let r := ext s in
  set_ext (Fields (order r) (eps r) X (d_mem r) (ide_eps r) (ide r)
             (y_mem r) (e_mem r)) s.
Definition set_d_mem (v : vec F) (s : obj) : obj :=
  let r := ext s in
  set_ext (Fields (order r) (eps r) (x_mem r) v (ide_eps r) (ide r)
             (y_mem r) (e_mem r)) s.
Definition set_y_mem (v : vec F) (s : obj) : obj :=
  let r := ext s in
  set_ext (Fields (order r) (eps r) (x_mem r) (d_mem r) (ide_eps r) (ide r)
             (Some v) (e_mem r)) s.
Definition set_e_mem (v : vec F) (s : obj) : obj :=
  let r := ext s in
  set_ext (Fields (order r) (eps r) (x_mem r) (d_mem r) (ide_eps r) (ide r)
             (y_mem r) (Some v)) s.

(** [__init__(self, *args, order=5, eps=0.001, **kwargs)]: the positional
    and keyword arguments go to [AdaptiveFilter.__init__] as they are,
    here in the order of its signature. *)
Definition init (mu n : num F) (w : weight_spec F) (order : num F) (eps : F)
    : result obj :=
  rbind (AdaptiveFilter.init mu n w) (λ b,
  rbind (as_size (AdaptiveFilter.n b)) (λ rows,
  rbind (as_size order) (λ k,
  Ok (set_ext (Fields k eps (zeros2 rows k) (zeros k)
                 (mscale eps (identity k)) (identity k) None None) b)))).

(** The four slice assignments on the window. *)

(** [self.x_mem[:, 1:] = self.x_mem[:, :-1]] *)
Definition shift_x_mem : M obj unit :=
  s <- get ;; modify (set_x_mem (shift_right <$> x_mem (ext s))).

(** [self.x_mem[:, 0] = x] *)
Definition set_x_mem_col0 (x : vec F) : M obj unit :=
  s <- get ;;
  if Nat.eqb (order (ext s)) 0 then raise IndexError
  else
    col <- lift (broadcast_to (length (x_mem (ext s))) x) ;;
    modify (set_x_mem (zip_with (λ a row, <[0 := a]> row) col (x_mem (ext s)))).

(** [self.d_mem[1:] = self.d_mem[:-1]] *)
Definition shift_d_mem : M obj unit :=
  s <- get ;; modify (set_d_mem (shift_right (d_mem (ext s)))).

(** [self.d_mem[0] = d] *)
Definition set_d_mem0 (d : F) : M obj unit :=
  s <- get ;;
  if Nat.eqb (length (d_mem (ext s))) 0 then raise IndexError
  else modify (set_d_mem (<[0 := d]> (d_mem (ext s)))).

(** [adapt(d, x)] *)
Definition adapt (d : F) (x : vec F) : M obj unit :=
  shift_x_mem ;;;
  set_x_mem_col0 x ;;;
  shift_d_mem ;;;
  set_d_mem0 d ;;;
  s <- get ;;
  let X := x_mem (ext s) in
  let XT := transpose (order (ext s)) X in
  y <- lift (np_dot_mv (length X) XT (w s)) ;;
  modify (set_y_mem y) ;;;
  let e := vsub (d_mem (ext s)) y in
  modify (set_e_mem e) ;;;
  let dw_part1 := madd (matmul (order (ext s)) XT X) (ide_eps (ext s)) in
  dw_part2 <- lift (linalg_solve dw_part1 (ide (ext s))) ;;
  let dw := matvec X (matvec dw_part2 e) in
  w' <- lift (np_iadd (w s) (scale (val (mu s)) dw)) ;;
  modify (set_w w').

(** What [self.learning_rule] resolves to on the instance's class:
    [AdaptiveFilterAP] and [AdaptiveFilter] define none. *)
Variable learning_rule : option (vec F → matrix F → M obj (vec F)).

Definition call_learning_rule (e : vec F) (X : matrix F) : M obj (vec F) :=
  match learning_rule with
  | Some rule => rule e X
  | None => raise (AttributeError "learning_rule")
  end.

(** One pass of the adaptation loop of [run], at index [k]; its value is
    [y[k]] and [e[k]]. *)
Definition run_body (d : vec F) (x : matrix F) (k : nat) : M obj (F * F) :=
  s <- get ;;
  h <- lift_opt TypeError (w_history s) ;;
  row <- lift_opt IndexError (h !! k) ;;
  r <- lift (broadcast_to (length row) (w s)) ;;
  modify (set_w_history (Some (<[k := r]> h))) ;;;
  shift_x_mem ;;;
  xk <- lift_opt IndexError (x !! k) ;;
  set_x_mem_col0 xk ;;;
  shift_d_mem ;;;
  dk <- lift_opt IndexError (d !! k) ;;
  set_d_mem0 dk ;;;
  s1 <- get ;;
  let X := x_mem (ext s1) in
  let XT := transpose (order (ext s1)) X in
  y <- lift (np_dot_mv (length X) XT (w s1)) ;;
  modify (set_y_mem y) ;;;
  let e := vsub (d_mem (ext s1)) y in
  modify (set_e_mem e) ;;;
  yk <- lift_opt IndexError (y !! 0) ;;
  ek <- lift_opt IndexError (e !! 0) ;;
  delta <- call_learning_rule e X ;;
  w' <- lift (np_iadd (w s1) delta) ;;
  modify (set_w w') ;;;
  ret (yk, ek).

Fixpoint run_loop (d : vec F) (x : matrix F) (ks : list nat)
    (y e : vec F) : M obj (vec F * vec F) :=
  match ks with
  | [] => ret (y, e)
  | k :: ks' =>
      r <- run_body d x k ;;
      run_loop d x ks' (<[k := r.1]> y) (<[k := r.2]> e)
  end.

(** [run(d, x)] *)
Definition run (d : vec F) (x : list (list F))
    : M obj (vec F * vec F * matrix F) :=
  let N := length x in
  if negb (Nat.eqb (length d) N) then raise DimensionMismatch
  else
    x0 <- lift_opt IndexError (x !! 0) ;;
    modify (set_n (Int (Z.of_nat (length x0)))) ;;;
    xa <- lift (match np_array2 x with
                | Ok a => Ok a
                | Raise _ => Raise ConversionError
                end) ;;
    s <- get ;;
    c <- lift (as_size (n s)) ;;
    modify (set_w_history (Some (zeros2 N c))) ;;;
    ye <- run_loop d xa (seq 0 N) (zeros N) (zeros N) ;;
    s' <- get ;;
    h <- lift_opt TypeError (w_history s') ;;
    ret (ye.1, ye.2, h).

(** A run of single-sample calls [adapt(d[k], x[k])], in order; it stops
    at the first call that raises. *)
Fixpoint adapt_all (d : vec F) (x : list (vec F)) : M obj unit :=
  match d, x with
  | dk :: d', xk :: x' => adapt dk xk ;;; adapt_all d' x'
  | _, _ => ret tt
  end.
End Class.

Arguments fields F : clear implicits.
Arguments obj F : clear implicits.
End AdaptiveFilterAP.

(** ** Exact rational arithmetic as the numeric library

    The concrete runs below are evaluated over [Q], every result reduced to
    lowest terms.  [solve] is Gauss-Jordan elimination on the augmented
    matrix; the sampler returns the mean for every draw. *)

Module Exact.
Definition qadd (a b : Q) : Q := Qred (a + b).
Definition qsub (a b : Q) : Q := Qred (a - b).
Definition qmul (a b : Q) : Q := Qred (a * b).
Definition qdiv (a b : Q) : Q := Qred (a / b).
Definition qtrunc (a : Q) : Z := Z.quot (Qnum a) (Z.pos (Qden a)).

Definition entry (c : nat) (r : list Q) : Q := default 0%Q (r !! c).

(** The first row with a non-zero entry in column [c], and the others. *)
Fixpoint find_pivot (c : nat) (rows : list (list Q))
    : option (list Q * list (list Q)) :=
  match rows with
  | [] => None
  | r :: rs =>
      if Qeq_bool (entry c r) 0 then
        match find_pivot c rs with
        | Some (p, rest) => Some (p, r :: rest)
        | None => None
        end
      else Some (r, rs)
  end.

(** [r - (r[c]) * p] *)
Definition reduce_row (c : nat) (p r : list Q) : list Q :=
  zip_with (λ a b, qsub b (qmul (entry c r) a)) p r.

Fixpoint eliminate (fuel c : nat) (done todo : list (list Q))
    : result (list (list Q)) :=
  match fuel with
  | O => Ok done
  | S fuel' =>
      match find_pivot c todo with
      | None => Raise LinAlgError
      | Some (p, rest) =>
          let p' := (λ a, qdiv a (entry c p)) <$> p in
          eliminate fuel' (S c)
            ((reduce_row c p' <$> done) ++ [p'])
            (reduce_row c p' <$> rest)
      end
  end.

Definition solve (A B : list (list Q)) : result (list (list Q)) :=
  rbind (eliminate (length A) 0 [] (zip_with app A B))
    (λ rows, Ok (drop (length A) <$> rows)).

#[global] Instance numeric : Numeric Q := {
  zero := 0%Q;
  one := 1%Q;
  add := qadd;
  sub := qsub;
  mul := qmul;
  div := qdiv;
  eqb := Qeq_bool;
  of_Z := inject_Z;
  trunc := qtrunc;
  linalg_solve := solve;
  random_normal := λ loc _ k, replicate k loc
}.
End Exact.

(** ** Vocabulary of the statements *)

Section Vocabulary.
Context {F : Type} `{Numeric F}.

(** The state in which [run] enters its adaptation loop: [n] rebound to
    the width of the first row, [w_history] freshly allocated. *)
Definition loop_entry {R} (x : list (list F)) (s : AdaptiveFilter.self F R)
    : AdaptiveFilter.self F R :=
  let c := length (default [] (x !! 0)) in
  AdaptiveFilter.set_w_history (Some (zeros2 (length x) c))
    (AdaptiveFilter.set_n (Int (Z.of_nat c)) s).

(** A filter with the two attributes only [run] assigns set to [k] and
    [h]. *)
Definition with_run_fields {R} (k : num F) (h : option (matrix F))
    (s : AdaptiveFilter.self F R) : AdaptiveFilter.self F R :=
  AdaptiveFilter.set_w_history h (AdaptiveFilter.set_n k s).

(** The values the learning rule returns, pass after pass, when the loop
    of [run] goes through the indices [ks] from state [s]. *)
Fixpoint rule_deltas {R}
    (rule : option (F → vec F → M (AdaptiveFilter.self F R) (vec F)))
    (d : vec F) (x : matrix F) (ks : list nat) (s : AdaptiveFilter.self F R)
    : list (vec F) :=
  match ks with
  | [] => []
  | k :: ks' =>
      match AdaptiveFilter.run_body rule d x k s with
      | (s', Ok r) => r.2 :: rule_deltas rule d x ks' s'
      | (_, Raise _) => []
      end
  end.

(** The exceptions the array operations of a loop pass can end in. *)
Definition numpy_error (err : exn) : Prop :=
  err = TypeError ∨ err = IndexError ∨ err = no_broadcast ∨ err = not_aligned.

(** The shapes [AdaptiveFilterAP.__init__] sets up and no method changes:
    [x_mem] has one row per weight and [order] columns, [d_mem] has
    [order] cells, [ide] is the identity and [ide_eps] is [eps] times
    it. *)
Definition ap_wf (f : AdaptiveFilterAP.obj F) : Prop :=
  let r := AdaptiveFilter.ext f in
  as_size (AdaptiveFilter.n f) = Ok (length (AdaptiveFilterAP.x_mem r)) ∧
  length (AdaptiveFilter.w f) = length (AdaptiveFilterAP.x_mem r) ∧
  Forall (λ row, length row = AdaptiveFilterAP.order r)
    (AdaptiveFilterAP.x_mem r) ∧
  length (AdaptiveFilterAP.d_mem r) = AdaptiveFilterAP.order r ∧
  AdaptiveFilterAP.ide r = identity (AdaptiveFilterAP.order r) ∧
  AdaptiveFilterAP.ide_eps r =
    mscale (AdaptiveFilterAP.eps r) (identity (AdaptiveFilterAP.order r)).

(** The window after one more sample: every row shifted right by one
    cell, the new input in column 0. *)
Definition slide_x (x : vec F) (X : matrix F) : matrix F :=
  zip_with (λ a row, <[0 := a]> row) x (shift_right <$> X).
Definition slide_d (d : F) (v : vec F) : vec F := <[0 := d]> (shift_right v).

(** The filter once a sample is in the window and the window outputs and
    errors are estimated: [x_mem], [d_mem], [y_mem] and [e_mem] are
    reassigned, the weights are still the old ones. *)
Definition ap_window (d : F) (x : vec F) (f : AdaptiveFilterAP.obj F)
    : AdaptiveFilterAP.obj F :=
  let r := AdaptiveFilter.ext f in
  let X := slide_x x (AdaptiveFilterAP.x_mem r) in
  let D := slide_d d (AdaptiveFilterAP.d_mem r) in
  let y := matvec (transpose (AdaptiveFilterAP.order r) X)
             (AdaptiveFilter.w f) in
  AdaptiveFilterAP.set_e_mem (vsub D y)
    (AdaptiveFilterAP.set_y_mem y
       (AdaptiveFilterAP.set_d_mem D (AdaptiveFilterAP.set_x_mem X f))).

(** The delta [adapt] of the affine-projection filter adds to the weights,
    for window [X] and window errors [e]. *)
Definition ap_delta (s : AdaptiveFilterAP.obj F) (e : vec F) (X : matrix F)
    : result (vec F) :=
  let r := AdaptiveFilter.ext s in
  let XT := transpose (AdaptiveFilterAP.order r) X in
  rbind (linalg_solve
           (madd (matmul (AdaptiveFilterAP.order r) XT X)
              (AdaptiveFilterAP.ide_eps r))
           (AdaptiveFilterAP.ide r))
    (λ z, Ok (scale (val (AdaptiveFilter.mu s)) (matvec X (matvec z e)))).



End Vocabulary.

(** ** Concrete filters and batches

    Filters as the constructors return them, over exact rationals. *)

Module Samples.
Import AdaptiveFilter.
Local Open Scope Q_scope.

(** [FilterGNGD(n=2, mu=2, eps=1, ro=0.1, w=[0, 0])] *)
Definition gngd0 : FilterGNGD.obj Q :=
  Self [0; 0] (Int 2) None (Int 2) (FilterGNGD.Fields 1 (1 # 10) 0 [0; 0]).

(** [AdaptiveFilterAP(mu=0.1, n=2, w=[0, 0], order=2, eps=0.001)] *)
Definition ap0 : AdaptiveFilterAP.obj Q :=
  Self [0; 0] (Int 2) None (Float (1 # 10))
    (AdaptiveFilterAP.Fields 2 (1 # 1000) [[0; 0]; [0; 0]] [0; 0]
       [[1 # 1000; 0]; [0; 1 # 1000]] [[1; 0]; [0; 1]] None None).

Definition d2 : vec Q := [1; 2].
Definition x2 : list (vec Q) := [[1; 0]; [0; 1]].
Definition x_ragged : list (vec Q) := [[1]; [0; 1]].
Definition d4 : vec Q := [1; 2; 3; 1].
Definition x4 : list (vec Q) := [[1; 0]; [0; 1]; [1; 0]; [0; 1]].

(** [gngd0] after [run(d2, x2)], and what the call returns. *)
Definition gngd0_run : FilterGNGD.obj Q :=
  Self [1; 2] (Int 2) (Some [[0; 0]; [1; 0]]) (Int 2)
    (FilterGNGD.Fields 1 (1 # 10) 2 [0; 1]).
Definition y2 : vec Q := [0; 0].
Definition e2 : vec Q := [1; 2].
Definition h2 : matrix Q := [[0; 0]; [1; 0]].

(** [ap0] after [adapt(1, [1, 0])] and after [adapt(2, [0, 1])] on top. *)
Definition ap1 : AdaptiveFilterAP.obj Q :=
  Self [100 # 1001; 0] (Int 2) None (Float (1 # 10))
    (AdaptiveFilterAP.Fields 2 (1 # 1000) [[1; 0]; [0; 0]] [1; 0]
       [[1 # 1000; 0]; [0; 1 # 1000]] [[1; 0]; [0; 1]]
       (Some [0; 0]) (Some [1; 0])).
Definition ap2 : AdaptiveFilterAP.obj Q :=
  Self [190200 # 1002001; 200 # 1001] (Int 2) None (Float (1 # 10))
    (AdaptiveFilterAP.Fields 2 (1 # 1000) [[0; 1]; [1; 0]] [2; 1]
       [[1 # 1000; 0]; [0; 1 # 1000]] [[1; 0]; [0; 1]]
       (Some [0; 100 # 1001]) (Some [2; 901 # 1001])).
(** The solution of the regularised system of the first call. *)
Definition z1 : matrix Q := [[1000 # 1001; 0]; [0; 1000]].


(** [gngd0] after [pretrained_run(d4, x4, 0.5, 1)]. *)
Definition gngd0_pretrained : FilterGNGD.obj Q :=
  Self [3; 1] (Int 2) (Some [[1; 2]; [3; 2]]) (Int 2)
    (FilterGNGD.Fields 1 (1 # 10) (-1) [0; 1]).
End Samples.

(** ** Vocabulary of the further statements *)

Section Stream.
Context {F : Type} `{Numeric F}.

(** One pass of the loop of [run] without the history (base_filter.py,
    lines 193-195): predict, take the error, ask the rule, move the
    weights.  Its value is the output, the error and the delta. *)
Definition sample_step {R}
    (rule : option (F → vec F → M (AdaptiveFilter.self F R) (vec F)))
    (dk : F) (xk : vec F) : M (AdaptiveFilter.self F R) (F * F * vec F) :=
  (yk <- AdaptiveFilter.predict xk ;;
   let ek := sub dk yk in
   s1 <- get ;;
   delta <- AdaptiveFilter.call_learning_rule rule ek xk ;;
   w' <- lift (np_iadd (AdaptiveFilter.w s1) delta) ;;
   modify (AdaptiveFilter.set_w w') ;;;
   ret (yk, ek, delta))%py.

(** The passes in a row over the paired samples; the value lists, per
    sample, the weights before the pass, the output and the error. *)
Fixpoint sample_steps {R}
    (rule : option (F → vec F → M (AdaptiveFilter.self F R) (vec F)))
    (d : vec F) (x : list (vec F))
    : M (AdaptiveFilter.self F R) (list (vec F * F * F)) :=
  match d, x with
  | dk :: d', xk :: x' =>
      (s <- get ;;
       r <- sample_step rule dk xk ;;
       rest <- sample_steps rule d' x' ;;
       ret ((AdaptiveFilter.w s, r.1.1, r.1.2) :: rest))%py
  | _, _ => ret []
  end.

Definition trace_w (tr : list (vec F * F * F)) : matrix F := (λ t, t.1.1) <$> tr.
Definition trace_y (tr : list (vec F * F * F)) : vec F := (λ t, t.1.2) <$> tr.
Definition trace_e (tr : list (vec F * F * F)) : vec F := (λ t, t.2) <$> tr.

(** A GNGD filter whose weights and remembered input have [m] cells. *)
Definition gngd_sized (m : nat) (f : FilterGNGD.obj F) : Prop :=
  length (AdaptiveFilter.w f) = m ∧
  length (FilterGNGD.last_x (AdaptiveFilter.ext f)) = m.

(** Python's [==] between the length of a sequence and a number. *)
Definition len_is (l : vec F) (k : num F) : bool :=
  num_eqb (Int (Z.of_nat (length l))) k.

(** The sampler returns as many draws as it is asked for. *)
Definition sampler_sized : Prop :=
  ∀ (loc sc : F) (k : nat), length (random_normal loc sc k) = k.
End Stream.


Module MoreSamples.
Import AdaptiveFilter.
Local Open Scope Q_scope.

(** [AdaptiveFilterAP(mu=0.1, n=2, w=[0, 0], order=2, eps=0)]: nothing
    regularises the system [adapt] solves. *)
Definition ap_sing : AdaptiveFilterAP.obj Q :=
  Self [0; 0] (Int 2) None (Float (1 # 10))
    (AdaptiveFilterAP.Fields 2 0 [[0; 0]; [0; 0]] [0; 0]
       [[0; 0]; [0; 0]] [[1; 0]; [0; 1]] None None).

(** [FilterGNGD(n=3, mu=2, eps=1, ro=0.1, w=[0, 0])] *)
Definition gngd_3_2 : FilterGNGD.obj Q :=
  Self [0; 0] (Int 2) None (Int 3)
    (FilterGNGD.Fields 1 (1 # 10) 0 [0; 0; 0]).

(** [AdaptiveFilter(mu=0.1, n=2, w="zeros")] *)
Definition base0 : self Q unit :=
  Self [0; 0] (Int 2) None (Float (1 # 10)) tt.

(** [gngd0] after [run(d4, x4)], and what the call returns. *)
Definition gngd0_run4 : FilterGNGD.obj Q :=
  Self [3; 1] (Int 2) (Some [[0; 0]; [1; 0]; [1; 2]; [3; 2]]) (Int 2)
    (FilterGNGD.Fields 1 (1 # 10) (-1) [0; 1]).
Definition y4 : vec Q := [0; 0; 1; 2].
Definition e4 : vec Q := [1; 2; 2; -1].
Definition h4 : matrix Q := [[0; 0]; [1; 0]; [1; 2]; [3; 2]].
End MoreSamples.
(** * Theorems *)

Import AdaptiveFilter.

(** ** The monad *)

Section Monad.
Context {S A B : Type}.

Lemma bind_ok (m : M S A) (k : A → M S B) s s' b :
  bind m k s = (s', Ok b) ↔ ∃ s1 a, m s = (s1, Ok a) ∧ k a s1 = (s', Ok b).
Proof.
  unfold bind. destruct (m s) as [s1 [a|e]]; split.
  - eauto.
  - intros (? & ? & [= <- <-] & ?); done.
  - done.
  - intros (? & ? & [=] & _).
Qed.

Lemma bind_eq (m : M S A) (k : A → M S B) s s1 a :
  m s = (s1, Ok a) → bind m k s = k a s1.
Proof. unfold bind. by intros ->. Qed.

Lemma bind_raise (m : M S A) (k : A → M S B) s s1 e :
  m s = (s1, Raise e) → bind m k s = (s1, Raise e).
Proof. unfold bind. by intros ->. Qed.
End Monad.

Ltac unfold_monad :=
  unfold bind, ret, raise, get, modify, lift, lift_opt, rbind in *.

(** ** Errors of the numeric library *)

Section Errors.
Context {F : Type} `{Numeric F}.

Lemma numpy_error_not_dimension err :
  numpy_error err → err ≠ DimensionMismatch.
Proof. intros [-> | [-> | [-> | ->]]]; discriminate. Qed.

Lemma as_size_of_nat (c : nat) : as_size (F:=F) (Int (Z.of_nat c)) = Ok c.
Proof.
  unfold as_size. destruct (Z.ltb_spec (Z.of_nat c) 0); [lia|].
  by rewrite Nat2Z.id.
Qed.

Lemma broadcast_to_raises k (v : vec F) err :
  broadcast_to k v = Raise err → err = no_broadcast.
Proof. unfold broadcast_to. repeat case_match; congruence. Qed.

Lemma broadcast_to_same k (v : vec F) : length v = k → broadcast_to k v = Ok v.
Proof. intros <-. unfold broadcast_to. by rewrite Nat.eqb_refl. Qed.

Lemma np_dot_raises (u v : vec F) err :
  np_dot u v = Raise err → err = not_aligned.
Proof. unfold np_dot. case_match; congruence. Qed.

Lemma np_dot_ok (u v : vec F) a :
  np_dot u v = Ok a ↔ length u = length v ∧ a = vdot u v.
Proof.
  unfold np_dot. destruct (Nat.eqb_spec (length u) (length v)); split.
  - by intros [= <-].
  - by intros [_ ->].
  - done.
  - by intros [? _].
Qed.

Lemma np_iadd_raises (u v : vec F) err :
  np_iadd u v = Raise err → err = no_broadcast.
Proof.
  unfold np_iadd, rbind. destruct (broadcast_to _ _) eqn:E; [done|].
  intros [= <-]. by eapply broadcast_to_raises.
Qed.

Lemma np_iadd_same (u v : vec F) :
  length v = length u → np_iadd u v = Ok (vadd u v).
Proof. intros Hl. unfold np_iadd. by rewrite broadcast_to_same. Qed.

Lemma learning_rule_raises e x (s s' : FilterGNGD.obj F) err :
  FilterGNGD.learning_rule e x s = (s', Raise err) → err = not_aligned.
Proof.
  unfold FilterGNGD.learning_rule, np_dot. unfold_monad.
  repeat case_match; congruence.
Qed.

Lemma run_body_raises d x k (s s' : FilterGNGD.obj F) err :
  run_body (Some FilterGNGD.learning_rule) d x k s = (s', Raise err) →
  numpy_error err.
Proof.
  unfold run_body, predict, call_learning_rule. unfold_monad.
  intros Hb. unfold numpy_error.
  repeat (case_match; simplify_eq);
    eauto using broadcast_to_raises, np_dot_raises, np_iadd_raises,
      learning_rule_raises.
Qed.

Lemma run_loop_raises d x ks y e (s s' : FilterGNGD.obj F) err :
  run_loop (Some FilterGNGD.learning_rule) d x ks y e s = (s', Raise err) →
  numpy_error err.
Proof.
  revert y e s. induction ks as [|k ks IH]; intros y e s; simpl.
  - done.
  - unfold bind at 1.
    destruct (run_body _ d x k s) as [s1 [r|e1]] eqn:Hb.
    + apply IH.
    + intros [= <- <-]. by eapply run_body_raises.
Qed.

(** The validation part of [run], case by case. *)
Lemma run_length_mismatch {R} rule d x (s : self F R) :
  length d ≠ length x → run rule d x s = (s, Raise DimensionMismatch).
Proof.
  intros Hl. unfold run. by destruct (Nat.eqb_spec (length d) (length x)).
Qed.

Lemma run_ragged {R} rule d x x0 (s : self F R) :
  length d = length x → x !! 0 = Some x0 → is_ok (np_array2 x) = false →
  run rule d x s = (set_n (Int (Z.of_nat (length x0))) s, Raise ConversionError).
Proof.
  intros Hl Hx Hr. unfold run. rewrite Hl, Nat.eqb_refl. cbn [negb].
  unfold_monad. rewrite Hx. by destruct (np_array2 x).
Qed.

Lemma ap_run_length_mismatch rule d x (s : AdaptiveFilterAP.obj F) :
  length d ≠ length x →
  AdaptiveFilterAP.run rule d x s = (s, Raise DimensionMismatch).
Proof.
  intros Hl. unfold AdaptiveFilterAP.run.
  by destruct (Nat.eqb_spec (length d) (length x)).
Qed.

Lemma ap_run_ragged rule d x x0 (s : AdaptiveFilterAP.obj F) :
  length d = length x → x !! 0 = Some x0 → is_ok (np_array2 x) = false →
  AdaptiveFilterAP.run rule d x s =
    (set_n (Int (Z.of_nat (length x0))) s, Raise ConversionError).
Proof.
  intros Hl Hx Hr. unfold AdaptiveFilterAP.run. rewrite Hl, Nat.eqb_refl.
  cbn [negb]. unfold_monad. rewrite Hx. by destruct (np_array2 x).
Qed.

Lemma np_array2_ok (x a : list (list F)) :
  np_array2 x = Ok a → a = x ∧ rectangular x = true.
Proof. unfold np_array2. by destruct (rectangular x); intros [= <-]. Qed.

(** Past the validation, [run] is its loop from [loop_entry]. *)
Lemma run_validated {R} rule d x x0 (s : self F R) :
  length d = length x → x !! 0 = Some x0 → rectangular x = true →
  run rule d x s =
    bind (run_loop rule d x (seq 0 (length x)) (zeros (length x))
            (zeros (length x)))
      (λ ye, bind get (λ s', bind (lift_opt TypeError (w_history s'))
                               (λ h, ret (ye.1, ye.2, h))))
      (loop_entry x s).
Proof.
  intros Hl Hx Hr. unfold run, loop_entry. rewrite Hl, Nat.eqb_refl.
  cbn [negb]. rewrite Hx. cbn [default].
  unfold np_array2. rewrite Hr.
  unfold bind at 1. unfold lift_opt at 1.
  unfold bind at 1. unfold modify at 1.
  unfold bind at 1. unfold lift at 1.
  unfold bind at 1. unfold get at 1.
  unfold bind at 1. unfold lift at 1. cbn [n set_n].
  rewrite as_size_of_nat.
  unfold bind at 1. unfold modify at 1. done.
Qed.

Lemma gngd_run_not_dimension d x (f : FilterGNGD.obj F) :
  length d = length x →
  (FilterGNGD.run d x f).2 ≠ Raise DimensionMismatch.
Proof.
  intros Hl. unfold FilterGNGD.run.
  destruct (x !! 0) as [x0|] eqn:Hx; cycle 1.
  { unfold run. rewrite Hl, Nat.eqb_refl. cbn [negb]. unfold_monad.
    by rewrite Hx. }
  destruct (rectangular x) eqn:Hr; cycle 1.
  { erewrite run_ragged; [done..|]. unfold np_array2. by rewrite Hr. }
  erewrite run_validated by done.
  unfold bind at 1.
  destruct (run_loop _ _ _ _ _ _ _) as [s' [[y e]|err]] eqn:Hloop.
  - unfold_monad. by destruct (w_history s').
  - cbn. intros [= ->].
    by eapply numpy_error_not_dimension; [eapply run_loop_raises|].
Qed.

(** C4 (amended): [run] raises DimensionMismatch exactly when [len(d)]
    differs from [len(x)], and then leaves the filter as it was; when the
    lengths agree, the batch has a first row and [x] cannot be converted
    to an array, it raises ConversionError with the filter unchanged but
    for [n], already rebound to the width of the first row. *)
Theorem run_validation (f : FilterGNGD.obj F) (d : vec F) (x : list (list F)) :
  ((FilterGNGD.run d x f).2 = Raise DimensionMismatch ↔ length d ≠ length x) ∧
  (length d ≠ length x → (FilterGNGD.run d x f).1 = f) ∧
  (∀ x0, length d = length x → x !! 0 = Some x0 →
     is_ok (np_array2 x) = false →
     FilterGNGD.run d x f =
       (set_n (Int (Z.of_nat (length x0))) f, Raise ConversionError)).
Proof.
  split; [split|split].
  - intros Hr. intros Hl. by apply (gngd_run_not_dimension d x f).
  - intros Hl. unfold FilterGNGD.run. by rewrite run_length_mismatch.
  - intros Hl. unfold FilterGNGD.run. by rewrite run_length_mismatch.
  - intros x0 Hl Hx Hr. by apply run_ragged.
Qed.

(** C10: [run] reads [x[0]] after the length check and before the
    conversion.  On the empty batch the access is out of range: the call
    ends in IndexError, with no result and neither of the two validation
    errors; a batch with [len(d) ≠ len(x)] is refused before the access,
    and a ragged one after it.  The same holds for the override in
    [AdaptiveFilterAP]. *)
Theorem run_empty_batch :
  (∀ R rule (s : self F R),
      run rule [] [] s = (s, Raise IndexError) ∧
      (∀ d, d ≠ [] → run rule d [] s = (s, Raise DimensionMismatch)) ∧
      (∀ d x x0, length d = length x → x !! 0 = Some x0 →
         is_ok (np_array2 x) = false →
         run rule d x s =
           (set_n (Int (Z.of_nat (length x0))) s, Raise ConversionError))) ∧
  (∀ rule (s : AdaptiveFilterAP.obj F),
      AdaptiveFilterAP.run rule [] [] s = (s, Raise IndexError) ∧
      (∀ d, d ≠ [] →
         AdaptiveFilterAP.run rule d [] s = (s, Raise DimensionMismatch)) ∧
      (∀ d x x0, length d = length x → x !! 0 = Some x0 →
         is_ok (np_array2 x) = false →
         AdaptiveFilterAP.run rule d x s =
           (set_n (Int (Z.of_nat (length x0))) s, Raise ConversionError))).
Proof.
  split.
  - intros R rule s. split; [done|]. split.
    + intros d Hd. apply run_length_mismatch. by destruct d.
    + intros. by apply run_ragged.
  - intros rule s. split; [done|]. split.
    + intros d Hd. apply ap_run_length_mismatch. by destruct d.
    + intros. by apply ap_run_ragged.
Qed.

(** C2: [adapt] on a GNGD filter computes [y] and stops at the call of
    the unbound name [learning_rule]: it raises NameError (ValueError
    from the dot product when the lengths differ) and the weights stay as
    they were. *)
Theorem gngd_adapt_raises (f : FilterGNGD.obj F) (d : F) (x : vec F) :
  FilterGNGD.adapt d x f =
    (f, Raise (if Nat.eqb (length (w f)) (length x)
               then NameError "learning_rule" else not_aligned)).
Proof.
  unfold FilterGNGD.adapt, adapt, predict, np_dot. unfold_monad.
  by destruct (Nat.eqb _ _).
Qed.
End Errors.

(** ** The GNGD rule and the history of [run] *)

Section GNGD.
Context {F : Type} `{Numeric F}.
Import FilterGNGD.

Local Abbreviation rule := (Some FilterGNGD.learning_rule).

(** The regularisation term after a call of the rule. *)
Lemma learning_rule_eq (e : F) (x : vec F) (s : obj F) :
  length x = length (last_x (ext s)) →
  let r := ext s in
  let den := add (vdot (last_x r) (last_x r)) (eps r) in
  let eps' :=
    sub (eps r)
      (div (mul (mul (mul (mul (ro r) (val (mu s))) e) (last_e r))
              (vdot x (last_x r)))
         (mul den den)) in
  learning_rule e x s =
    (set_last e x (set_eps eps' s),
     Ok (scale (mul (div (val (mu s)) (add eps' (vdot x x))) e) x)).
Proof.
  intros Hl. unfold learning_rule, np_dot. unfold_monad.
  by rewrite Hl, !Nat.eqb_refl.
Qed.

Lemma learning_rule_mismatch (e : F) (x : vec F) (s : obj F) :
  length x ≠ length (last_x (ext s)) →
  learning_rule e x s = (s, Raise not_aligned).
Proof.
  intros Hl. unfold learning_rule, np_dot. unfold_monad.
  by destruct (Nat.eqb_spec (length x) (length (last_x (ext s)))).
Qed.

Lemma learning_rule_ok (e : F) (x : vec F) (s s' : obj F) (δ : vec F) :
  learning_rule e x s = (s', Ok δ) →
  length δ = length x ∧ w s' = w s ∧ n s' = n s ∧ mu s' = mu s ∧
  w_history s' = w_history s.
Proof.
  destruct (decide (length x = length (last_x (ext s)))) as [Hl|Hl].
  - rewrite learning_rule_eq by done. intros [= <- <-].
    unfold scale. by rewrite length_fmap.
  - by rewrite learning_rule_mismatch.
Qed.

(** C6: a call of the rule replaces [eps] by
    [eps − ro·mu·e·last_e·(x·last_x) / (last_x·last_x + eps)²], the
    square taken with the old [eps]; it returns [nu·e·x] with
    [nu = mu / (eps_new + x·x)]; afterwards [last_e = e] and
    [last_x = x], and nothing else of the filter has changed. *)
Theorem gngd_learning_rule (f : obj F) (e : F) (x : vec F) :
  length x = length (last_x (ext f)) →
  ∃ f' δ,
    learning_rule e x f = (f', Ok δ) ∧
    eps (ext f') =
      sub (eps (ext f))
        (div (mul (mul (mul (mul (ro (ext f)) (val (mu f))) e)
                     (last_e (ext f)))
                (vdot x (last_x (ext f))))
           (let den := add (vdot (last_x (ext f)) (last_x (ext f)))
                         (eps (ext f)) in
            mul den den)) ∧
    δ = scale (mul (div (val (mu f)) (add (eps (ext f')) (vdot x x))) e) x ∧
    last_e (ext f') = e ∧ last_x (ext f') = x ∧
    ro (ext f') = ro (ext f) ∧
    w f' = w f ∧ n f' = n f ∧ mu f' = mu f ∧ w_history f' = w_history f.
Proof.
  intros Hl. eexists _, _. split; [by apply learning_rule_eq|].
  repeat split.
Qed.

(** One pass of the loop of [run], when it goes through. *)
Lemma run_body_ok d x k (s s' : obj F) yk ek δ :
  run_body rule d x k s = (s', Ok (yk, ek, δ)) →
  ∃ h row r xk dk,
    w_history s = Some h ∧ h !! k = Some row ∧
    broadcast_to (length row) (w s) = Ok r ∧
    x !! k = Some xk ∧ d !! k = Some dk ∧
    length (w s) = length xk ∧ length δ = length xk ∧
    yk = vdot (w s) xk ∧ ek = sub dk yk ∧
    w_history s' = Some (<[k := r]> h) ∧
    w s' = vadd (w s) δ.
Proof.
  unfold run_body, predict, call_learning_rule. unfold_monad.
  intros Hb.
  repeat (case_match; simplify_eq).
  match goal with
  | Hd : np_dot _ _ = Ok _ |- _ => apply np_dot_ok in Hd as [Hlw ->]
  end.
  match goal with
  | Hr : learning_rule _ _ _ = _ |- _ =>
      apply learning_rule_ok in Hr as (Hlδ & Hw & _ & _ & Hh)
  end.
  cbn in *.
  match goal with
  | Hi : np_iadd _ _ = Ok _ |- _ =>
      rewrite np_iadd_same in Hi by congruence; injection Hi as <-
  end.
  eexists _, _, _, _, _.
  split_and!; [(eassumption || reflexivity)..| | | | | |]; try done;
    congruence.
Qed.

Lemma rectangular_rows (x : list (list F)) x0 :
  rectangular x = true → x !! 0 = Some x0 →
  ∀ k xk, x !! k = Some xk → length xk = length x0.
Proof.
  destruct x as [|r x']; [done|]. cbn. intros Hr [= <-] k xk.
  destruct k as [|k]; cbn; [by intros [= <-]|].
  intros Hk. rewrite forallb_forall in Hr.
  apply Nat.eqb_eq, Hr, list_elem_of_In. by eapply list_elem_of_lookup_2.
Qed.

(** The loop invariant: the rows of the history written so far are the
    running sums of the deltas on top of the weights at entry. *)
Lemma run_loop_history d x c :
  (∀ k xk, x !! k = Some xk → length xk = c) →
  ∀ len k y e (s s' : obj F) y' e' h,
    run_loop rule d x (seq k len) y e s = (s', Ok (y', e')) →
    w_history s = Some h → Forall (λ row, length row = c) h →
    ∃ h', w_history s' = Some h' ∧ length h' = length h ∧
      length (rule_deltas rule d x (seq k len) s) = len ∧
      (∀ i, i < k → h' !! i = h !! i) ∧
      (∀ i, i < len →
         h' !! (k + i) =
           Some (foldl vadd (w s) (take i (rule_deltas rule d x (seq k len) s)))) ∧
      w s' = foldl vadd (w s) (rule_deltas rule d x (seq k len) s).
Proof.
  intros Hx. induction len as [|len IH]; intros k y e s s' y' e' h Hloop Hh Hc.
  - injection Hloop as <- <- <-. exists h. split_and!; try done. lia.
  - cbn [seq run_loop rule_deltas] in *.
    apply bind_ok in Hloop as (s1 & [[yk ek] δ0] & Hb & Hloop).
    rewrite Hb. cbn [snd].
    apply run_body_ok in Hb
      as (h0 & row & r & xk & dk & Hh0 & Hrow & Hr & Hxk & Hdk & Hlw & Hlδ
          & _ & _ & Hh1 & Hw1).
    assert (h0 = h) as -> by congruence.
    assert (length row = c) as Hrc.
    { eapply Forall_lookup_1 in Hc; [|done]. done. }
    assert (r = w s) as ->.
    { rewrite broadcast_to_same in Hr; [congruence|].
      rewrite Hlw, Hrc. by eapply Hx. }
    eapply IH in Hloop as (h' & Hh' & Hlen & Hδ & Hlow & Hrows & Hw');
      [|done|].
    2:{ apply Forall_insert; [done|]. rewrite Hlw. by eapply Hx. }
    exists h'. rewrite length_insert in Hlen.
    split_and!; try done.
    + cbn. by rewrite Hδ.
    + intros i Hi. rewrite Hlow by lia. apply list_lookup_insert_ne. lia.
    + intros [|i] Hi.
      * rewrite Nat.add_0_r, Hlow by lia. cbn.
        apply list_lookup_insert_eq. by eapply lookup_lt_Some.
      * replace (k + S i) with (S k + i) by lia.
        rewrite Hrows by lia. cbn. by rewrite Hw1.
    + cbn. by rewrite Hw', Hw1.
Qed.

Lemma zeros2_rows (r c : nat) :
  Forall (λ row : vec F, length row = c) (zeros2 r c).
Proof.
  unfold zeros2, zeros. apply Forall_replicate. by rewrite length_replicate.
Qed.

(** C5: on a batch of [N ≥ 1] samples on which [run] succeeds, row 0 of
    the returned history is the weight vector at entry, each further row
    is the row before plus the delta the rule returned at that step, and
    the weights left in the filter are the last row plus the last
    delta. *)
Theorem gngd_weight_history (f f' : obj F) (d y e : vec F)
    (x : list (list F)) (h : matrix F) :
  1 ≤ length x →
  run d x f = (f', Ok (y, e, h)) →
  let δ := rule_deltas rule d x (seq 0 (length x)) (loop_entry x f) in
  length h = length x ∧ length δ = length x ∧
  h !! 0 = Some (w f) ∧
  (∀ k, k + 1 < length x →
     ∃ hk δk, h !! k = Some hk ∧ δ !! k = Some δk ∧
              h !! (k + 1) = Some (vadd hk δk)) ∧
  (∃ hl δl, h !! (length x - 1) = Some hl ∧ δ !! (length x - 1) = Some δl ∧
            w f' = vadd hl δl).
Proof.
  intros HN Hrun δ. subst δ. unfold run in Hrun.
  destruct (decide (length d = length x)) as [Hl|Hl]; cycle 1.
  { by rewrite run_length_mismatch in Hrun. }
  destruct (x !! 0) as [x0|] eqn:Hx0; cycle 1.
  { apply lookup_ge_None in Hx0. lia. }
  destruct (rectangular x) eqn:Hrect; cycle 1.
  { erewrite run_ragged in Hrun; [done..|]. unfold np_array2. by rewrite Hrect. }
  erewrite run_validated in Hrun by done.
  apply bind_ok in Hrun as (s' & [y' e'] & Hloop & Hret).
  unfold_monad. destruct (w_history s') as [h'|] eqn:Hh'; [|done].
  injection Hret as <- <- <- <-.
  assert (w_history (loop_entry x f) = Some (zeros2 (length x) (length x0)))
    as Hentry by (unfold loop_entry; by rewrite Hx0).
  eapply (run_loop_history d x (length x0)) in Hloop
    as (h & Hh & Hlen & Hδ & _ & Hrows & Hw);
    [|by apply rectangular_rows|exact Hentry|apply zeros2_rows].
  assert (h = h') as <- by congruence.
  set (δ := rule_deltas _ _ _ _ _) in *.
  assert (w (loop_entry x f) = w f) as Hw0 by done.
  rewrite Hw0 in *.
  assert (∀ i, i < length x → h !! i = Some (foldl vadd (w f) (take i δ)))
    as Hrow by (intros i Hi; exact (Hrows i Hi)).
  clear Hrows.
  split_and!.
  - rewrite Hlen. unfold zeros2. apply length_replicate.
  - done.
  - by rewrite (Hrow 0) by lia.
  - intros k Hk.
    destruct (lookup_lt_is_Some_2 δ k) as [δk Hδk]; [lia|].
    eexists _, δk. split_and!; [by apply (Hrow k); lia|done|].
    rewrite (Hrow (k + 1)) by lia. f_equal.
    rewrite Nat.add_1_r. erewrite take_S_r by done.
    by rewrite foldl_app.
  - destruct (lookup_lt_is_Some_2 δ (length x - 1)) as [δl Hδl]; [lia|].
    eexists _, δl. split_and!; [by apply (Hrow (length x - 1)); lia|done|].
    rewrite Hw. rewrite <- (take_drop (length x - 1) δ) at 1.
    rewrite foldl_app. erewrite drop_S by done.
    rewrite drop_ge by lia. done.
Qed.
End GNGD.

(** ** The sliding window of the affine-projection filter *)

Section Window.
Context {F : Type} `{Numeric F}.
Import AdaptiveFilterAP.

Lemma length_shift_right {A} (r : list A) : length (shift_right r) = length r.
Proof.
  unfold shift_right. rewrite length_app, !length_take. lia.
Qed.

Lemma slide_cell (a : F) (r : list F) :
  r ≠ [] → <[0 := a]> (shift_right r) = a :: take (length r - 1) r.
Proof. by destruct r. Qed.

Lemma length_slide_x (x : vec F) (X : matrix F) :
  length x = length X → length (slide_x x X) = length X.
Proof.
  intros Hl. unfold slide_x. rewrite length_zip_with, length_fmap. lia.
Qed.

Lemma slide_x_rows (x : vec F) (X : matrix F) c :
  Forall (λ row, length row = c) X →
  Forall (λ row, length row = c) (slide_x x X).
Proof.
  intros HX. unfold slide_x. revert x.
  induction HX as [|r X Hr HX IH]; intros [|a x]; simpl; try done.
  constructor; [|apply IH].
  by rewrite length_insert, length_shift_right.
Qed.

Lemma column_slide_0 (x : vec F) (X : matrix F) c :
  1 ≤ c → length x = length X → Forall (λ row, length row = c) X →
  column 0 (slide_x x X) = x.
Proof.
  intros Hc Hl HX. unfold slide_x, column. revert x Hl.
  induction HX as [|r X Hr HX IH]; intros [|a x] Hl; simpl in *; try done.
  rewrite IH by lia. f_equal.
  destruct r; simpl in *; [lia|done].
Qed.

Lemma column_slide_S (x : vec F) (X : matrix F) c j :
  S j < c → length x = length X → Forall (λ row, length row = c) X →
  column (S j) (slide_x x X) = column j X.
Proof.
  intros Hc Hl HX. unfold slide_x, column. revert x Hl.
  induction HX as [|r X Hr HX IH]; intros [|a x] Hl; simpl in *; try done.
  rewrite IH by lia. f_equal.
  rewrite slide_cell by (intros ->; simpl in *; lia).
  simpl. rewrite lookup_take. case_decide; [done|lia].
Qed.

Lemma slide_d_0 (d : F) (v : vec F) : v ≠ [] → slide_d d v !! 0 = Some d.
Proof. by destruct v. Qed.

Lemma slide_d_S (d : F) (v : vec F) j :
  S j < length v → slide_d d v !! S j = v !! j.
Proof.
  intros Hj. unfold slide_d. rewrite slide_cell by (intros ->; simpl in *; lia).
  simpl. rewrite lookup_take. case_decide; [done|lia].
Qed.

Lemma length_slide_d (d : F) (v : vec F) : length (slide_d d v) = length v.
Proof. unfold slide_d. by rewrite length_insert, length_shift_right. Qed.

Lemma transpose_lookup c (X : matrix F) j :
  j < c → transpose c X !! j = Some (column j X).
Proof.
  intros Hj. unfold transpose. rewrite list_lookup_fmap.
  by rewrite (proj2 (lookup_seq 0 c j j)).
Qed.

Lemma length_transpose c (X : matrix F) : length (transpose c X) = c.
Proof. unfold transpose. by rewrite length_fmap, length_seq. Qed.

(** The columns of the window, newest first, after one more sample. *)
Lemma transpose_slide (x : vec F) (X : matrix F) c :
  1 ≤ c → length x = length X → Forall (λ row, length row = c) X →
  transpose c (slide_x x X) = take c (x :: transpose c X).
Proof.
  intros Hc Hl HX. apply list_eq. intros j.
  rewrite lookup_take. case_decide as Hj.
  - rewrite transpose_lookup by done. destruct j as [|j].
    + simpl. f_equal. by eapply column_slide_0.
    + simpl. rewrite transpose_lookup by lia. f_equal.
      by eapply column_slide_S.
  - apply lookup_ge_None. rewrite length_transpose. lia.
Qed.
End Window.

(** ** [adapt] of the affine-projection filter *)

Ltac ap_step :=
  cbn [bind get modify lift lift_opt ret raise rbind
       set_w set_n set_w_history set_ext w n w_history mu ext
       AdaptiveFilterAP.set_x_mem AdaptiveFilterAP.set_d_mem
       AdaptiveFilterAP.set_y_mem AdaptiveFilterAP.set_e_mem
       AdaptiveFilterAP.order AdaptiveFilterAP.eps AdaptiveFilterAP.x_mem
       AdaptiveFilterAP.d_mem AdaptiveFilterAP.ide_eps AdaptiveFilterAP.ide
       AdaptiveFilterAP.y_mem AdaptiveFilterAP.e_mem
       AdaptiveFilterAP.shift_x_mem AdaptiveFilterAP.set_x_mem_col0
       AdaptiveFilterAP.shift_d_mem AdaptiveFilterAP.set_d_mem0
       fst snd Nat.eqb negb] in *.

Section AP.
Context {F : Type} `{Numeric F}.
Import AdaptiveFilterAP.

Lemma length_matvec (A : matrix F) (v : vec F) : length (matvec A v) = length A.
Proof. unfold matvec. by rewrite length_fmap. Qed.

Lemma length_scale (a : F) (v : vec F) : length (scale a v) = length v.
Proof. unfold scale. by rewrite length_fmap. Qed.

Lemma shift_right_cons {A} (a : A) (l : list A) :
  shift_right (a :: l) = a :: take (length l) (a :: l).
Proof. unfold shift_right. simpl. by rewrite Nat.sub_0_r. Qed.

(** [adapt] on a well-shaped filter: the window is updated, then the
    weights move by the delta unless the solver raises. *)
Lemma ap_adapt_eq (d : F) (x : vec F) (f : obj F) :
  ap_wf f → 1 ≤ order (ext f) → length x = length (x_mem (ext f)) →
  let W := ap_window d x f in
  let X := slide_x x (x_mem (ext f)) in
  let e := vsub (slide_d d (d_mem (ext f)))
             (matvec (transpose (order (ext f)) X) (w f)) in
  adapt d x f =
    match ap_delta W e X with
    | Ok δ => (set_w (vadd (w f) δ) W, Ok tt)
    | Raise err => (W, Raise err)
    end.
Proof.
  intros (Hn & Hw & HX & Hd & Hide & Hide_eps) Ho Hx W X e.
  destruct f as [w0 n0 h0 mu0 [o ep X0 D0 ie i0 y0 e0]]. ap_step.
  destruct o as [|o]; [lia|].
  unfold adapt, shift_x_mem, set_x_mem_col0, shift_d_mem, set_d_mem0.
  unfold_monad. ap_step.
  rewrite length_fmap, broadcast_to_same by done. ap_step.
  rewrite length_shift_right, Hd. ap_step.
  fold (slide_x x X0). fold (slide_d d D0). fold X.
  unfold np_dot_mv. subst X. rewrite length_slide_x by done.
  rewrite <- Hw, Nat.eqb_refl.
  unfold ap_delta, W, ap_window. ap_step. fold e.
  destruct (linalg_solve _ _) as [z|err]; [|done].
  rewrite np_iadd_same; [done|].
  by rewrite length_scale, length_matvec, length_slide_x.
Qed.

Lemma ap_window_wf (d : F) (x : vec F) (f : obj F) (v : vec F) :
  ap_wf f → length x = length (x_mem (ext f)) →
  length v = length (w f) →
  ap_wf (set_w v (ap_window d x f)).
Proof.
  intros (Hn & Hw & HX & Hd & Hide & Hide_eps) Hx Hv.
  unfold ap_wf, ap_window. ap_step.
  rewrite length_slide_x by done.
  split_and!; try done; [congruence|by apply slide_x_rows|].
  by rewrite length_slide_d.
Qed.

(** A call of [adapt] that returns, on a well-shaped filter. *)
Lemma ap_adapt_ok (d : F) (x : vec F) (f f' : obj F) :
  ap_wf f → 1 ≤ order (ext f) → length x = length (x_mem (ext f)) →
  adapt d x f = (f', Ok tt) →
  ap_wf f' ∧ order (ext f') = order (ext f) ∧
  x_mem (ext f') = slide_x x (x_mem (ext f)).
Proof.
  intros Hwf Ho Hx. rewrite ap_adapt_eq by done.
  destruct (ap_delta _ _ _) as [δ|err] eqn:Hδ; [|done].
  intros [= <-]. split_and!; [|done..].
  apply ap_window_wf; try done.
  unfold ap_delta, rbind in Hδ.
  destruct (linalg_solve _ _); [|done]. injection Hδ as <-.
  unfold vadd. rewrite length_zip_with, length_scale, length_matvec.
  rewrite length_slide_x by done. destruct Hwf as (_ & -> & _). lia.
Qed.

(** The constructor leaves a well-shaped filter. *)
Lemma ap_init_wf (mu0 n0 k : num F) (l : list F) (ep : F) (f : obj F) :
  init mu0 n0 (WSeq l) k ep = Ok f →
  ap_wf f ∧ as_size k = Ok (order (ext f)) ∧ w f = l ∧ mu f = mu0 ∧
  eps (ext f) = ep.
Proof.
  unfold init, AdaptiveFilter.init, init_weights, rbind.
  cbn [py_len np_array_float64].
  destruct (num_eqb n0 (Int (-1))); [done|].
  destruct (num_eqb _ n0) eqn:Hn; [|done]. ap_step.
  destruct (as_size n0) as [rows|] eqn:Hrows; [|done].
  destruct (as_size k) as [c|] eqn:Hc; [|done].
  intros [= <-]. unfold ap_wf. ap_step.
  unfold zeros2, zeros. rewrite !length_replicate.
  split_and!; try done.
  - destruct n0 as [z|]; [|done]. unfold as_size in Hrows. simpl in Hn.
    destruct (Z.ltb_spec z 0); [done|]. injection Hrows as <-.
    apply Z.eqb_eq in Hn. lia.
  - apply Forall_replicate. by rewrite length_replicate.
Qed.

(** C7: [adapt(d, x)] with [x] of length [n] shifts the window by one
    column and puts [x] in column 0, shifts [d_mem] and puts [d] in cell
    0, sets [y_mem = x_memᵀ·w] and [e_mem = d_mem − y_mem], solves
    [(x_memᵀ·x_mem + eps·I)·z = I] and adds [mu·x_mem·(z·e_mem)] to the
    weights. *)
Theorem ap_adapt_steps (f : obj F) (d : F) (x : vec F) (z : matrix F) :
  ap_wf f → 1 ≤ order (ext f) → as_size (n f) = Ok (length x) →
  let c := order (ext f) in
  let X := slide_x x (x_mem (ext f)) in
  let D := slide_d d (d_mem (ext f)) in
  let y := matvec (transpose c X) (w f) in
  let e := vsub D y in
  linalg_solve
    (madd (matmul c (transpose c X) X) (mscale (eps (ext f)) (identity c)))
    (identity c) = Ok z →
  (column 0 X = x ∧ ∀ j, S j < c → column (S j) X = column j (x_mem (ext f))) ∧
  (D !! 0 = Some d ∧ ∀ j, S j < c → D !! S j = d_mem (ext f) !! j) ∧
  (∀ j, j < c → y !! j = Some (vdot (column j X) (w f))) ∧
  ∃ f',
    adapt d x f = (f', Ok tt) ∧
    x_mem (ext f') = X ∧ d_mem (ext f') = D ∧
    y_mem (ext f') = Some y ∧ e_mem (ext f') = Some e ∧
    w f' = vadd (w f) (scale (val (mu f)) (matvec X (matvec z e))) ∧
    order (ext f') = c ∧ eps (ext f') = eps (ext f) ∧
    ide (ext f') = ide (ext f) ∧ ide_eps (ext f') = ide_eps (ext f) ∧
    mu f' = mu f ∧ n f' = n f ∧ w_history f' = w_history f.
Proof.
  intros Hwf Ho Hn c X D y e Hz.
  pose proof Hwf as (Hn' & Hw & HX & Hd & Hide & Hide_eps).
  assert (length x = length (x_mem (ext f))) as Hx by congruence.
  split_and!.
  - by eapply column_slide_0.
  - intros j Hj. by eapply column_slide_S.
  - apply slide_d_0. intros Hnil. rewrite Hnil in Hd. simpl in Hd. lia.
  - intros j Hj. apply slide_d_S. by rewrite Hd.
  - intros j Hj. subst y. unfold matvec.
    by rewrite list_lookup_fmap, transpose_lookup.
  - eexists. split.
    + rewrite ap_adapt_eq by done.
      change (ap_delta (ap_window d x f)) with (ap_delta f).
      unfold ap_delta. rewrite Hide, Hide_eps. fold c X D y e.
      rewrite Hz. reflexivity.
    + done.
Qed.

Lemma take_app_take {A} (k : nat) (l1 l2 : list A) :
  take k (l1 ++ take k l2) = take k (l1 ++ l2).
Proof.
  rewrite !take_app. f_equal. rewrite take_take. f_equal. lia.
Qed.

(** The columns of the window after a run of [adapt] calls: the inputs,
    newest first, in front of the columns there were. *)
Lemma adapt_all_window (d : vec F) (x : list (vec F)) (f f' : obj F) :
  ap_wf f → 1 ≤ order (ext f) → length d = length x →
  Forall (λ xk, length xk = length (x_mem (ext f))) x →
  adapt_all d x f = (f', Ok tt) →
  ap_wf f' ∧ order (ext f') = order (ext f) ∧
  transpose (order (ext f)) (x_mem (ext f')) =
    take (order (ext f))
      (reverse x ++ transpose (order (ext f)) (x_mem (ext f))).
Proof.
  revert d f. induction x as [|xk x IH]; intros [|dk d] f Hwf Ho Hl Hx;
    simpl in *; try done.
  - intros [= <-]. split_and!; try done.
    rewrite take_ge; [done|]. by rewrite length_transpose.
  - intros Hall. apply bind_ok in Hall as (f1 & [] & Had & Hall).
    apply Forall_cons in Hx as [Hxk Hx].
    apply ap_adapt_ok in Had as (Hwf1 & Ho1 & HX1); [|done..].
    apply IH in Hall as (Hwf' & Ho' & HT); try done; try lia.
    2:{ rewrite HX1, length_slide_x by done. done. }
    rewrite Ho1 in *. split_and!; try done.
    rewrite HT, HX1.
    destruct Hwf as (_ & _ & HX & _).
    rewrite transpose_slide by done.
    rewrite take_app_take, reverse_cons, <- app_assoc. done.
Qed.

(** C8: after [m ≥ order] calls of [adapt] with inputs [x_1 .. x_m],
    column [j] of [x_mem] is [x_(m−j)] for every [j < order]: column 0
    holds the newest input and column [order − 1] the one supplied
    [order − 1] calls before. *)
Theorem ap_window_columns (f f' : obj F) (d : vec F) (x : list (vec F)) :
  ap_wf f → 1 ≤ order (ext f) → length d = length x →
  Forall (λ xk, length xk = length (x_mem (ext f))) x →
  order (ext f) ≤ length x →
  adapt_all d x f = (f', Ok tt) →
  ∀ j, j < order (ext f) →
    x !! (length x - 1 - j) = Some (column j (x_mem (ext f'))).
Proof.
  intros Hwf Ho Hl Hx Hm Hall j Hj.
  eapply adapt_all_window in Hall as (_ & _ & HT); [|done..].
  assert (transpose (order (ext f)) (x_mem (ext f')) !! j
          = Some (column j (x_mem (ext f')))) as Hcol
    by by apply transpose_lookup.
  rewrite HT, lookup_take in Hcol. case_decide; [|lia].
  rewrite lookup_app_l in Hcol by (rewrite length_reverse; lia).
  rewrite reverse_lookup in Hcol by lia.
  rewrite <- Hcol. f_equal. lia.
Qed.
End AP.

(** ** [run] of the affine-projection filter against [adapt] *)

Section APRun.
Context {F : Type} `{Numeric F}.
Import AdaptiveFilterAP.

Variable rule : vec F → matrix F → M (obj F) (vec F).

(** [adapt] neither reads nor writes [n] and [w_history]. *)
Lemma ap_adapt_frame (d : F) (x : vec F) k h (g : obj F) :
  adapt d x (with_run_fields k h g) =
    ((with_run_fields k h (adapt d x g).1), (adapt d x g).2).
Proof.
  destruct g as [w0 n0 h0 mu0 [o ep X0 D0 ie i0 y0 e0]].
  unfold adapt, shift_x_mem, set_x_mem_col0, shift_d_mem, set_d_mem0,
    with_run_fields.
  unfold_monad. ap_step.
  repeat (case_match; simplify_eq; ap_step);
    simpl in *; simplify_eq; done.
Qed.





(** Past the validation, [run] is its loop from [loop_entry]. *)
Lemma ap_run_validated lr d x x0 (s : obj F) :
  length d = length x → x !! 0 = Some x0 → rectangular x = true →
  run lr d x s =
    bind (run_loop lr d x (seq 0 (length x)) (zeros (length x))
            (zeros (length x)))
      (λ ye, bind get (λ s', bind (lift_opt TypeError (w_history s'))
                               (λ h, ret (ye.1, ye.2, h))))
      (loop_entry x s).
Proof.
  intros Hl Hx Hr. unfold run, loop_entry. rewrite Hl, Nat.eqb_refl.
  cbn [negb]. rewrite Hx. cbn [default].
  unfold np_array2. rewrite Hr.
  unfold bind at 1. unfold lift_opt at 1.
  unfold bind at 1. unfold modify at 1.
  unfold bind at 1. unfold lift at 1.
  unfold bind at 1. unfold get at 1.
  unfold bind at 1. unfold lift at 1. cbn [n set_n].
  rewrite as_size_of_nat.
  unfold bind at 1. unfold modify at 1. done.
Qed.

End APRun.

(** ** The constructors and [pretrained_run] *)

Section Constructors.
Context {F : Type} `{Numeric F}.

(** What [FilterGNGD.__init__] leaves in [n] and [mu] when it accepts an
    explicit weight sequence. *)
Lemma gngd_init_fields (n0 mu0 : num F) (ep r : F) (l : list F)
    (f : FilterGNGD.obj F) :
  FilterGNGD.init n0 mu0 ep r (Some (WSeq l)) = Ok f →
  n f = mu0 ∧ mu f = n0 ∧ w f = l ∧
  num_eqb (Int (Z.of_nat (length l))) mu0 = true.
Proof.
  unfold FilterGNGD.init, AdaptiveFilter.init, init_weights, rbind.
  cbn [default from_option id py_len np_array_float64].
  destruct (num_eqb mu0 (Int (-1))); [done|].
  destruct (num_eqb _ mu0) eqn:Hlen; [|done].
  destruct (np_zeros n0); [|done]. by intros [= <-].
Qed.

Lemma run_returns_history {R} rule d x (s s' : self F R) y e h :
  run rule d x s = (s', Ok (y, e, h)) → w_history s' = Some h.
Proof.
  unfold run. destruct (negb _); [done|]. unfold_monad.
  intros Hrun. repeat (case_match; simplify_eq). done.
Qed.

Lemma pretrained_run_returns_history (d : vec F) (x : list (vec F))
    (ntrain : F) (epochs : Z) (f f' : FilterGNGD.obj F) y e h :
  FilterGNGD.pretrained_run d x ntrain epochs f = (f', Ok (y, e, h)) →
  w_history f' = Some h.
Proof.
  unfold FilterGNGD.pretrained_run, pretrained_run. intros Hp.
  apply bind_ok in Hp as (s1 & [] & _ & Hp).
  apply bind_ok in Hp as (s2 & [[y' e'] h'] & Hrun & Hret).
  injection Hret as <- <- <- <-. by eapply run_returns_history.
Qed.
End Constructors.

(** ** Evaluations on the sample filters *)

Section Evaluations.
Import Samples.
Local Open Scope Q_scope.

(** The sample filters are what the constructors return. *)
Lemma samples_constructed :
  FilterGNGD.init (Int 2) (Int 2) 1 (1 # 10) (Some (WSeq [0; 0])) = Ok gngd0 ∧
  AdaptiveFilterAP.init (Float (1 # 10)) (Int 2) (WSeq [0; 0]) (Int 2)
    (1 # 1000) = Ok ap0.
Proof. split; reflexivity. Qed.

Lemma ap0_wf : ap_wf ap0.
Proof. by eapply ap_init_wf, samples_constructed. Defined.

(** C1: [FilterGNGD(n=2, mu=0.1, w=[0, 0])] is refused: the constructor
    hands [n] and [mu] to the base class in the wrong order, so the length
    of [w] is compared with [mu]; and whenever an explicit [w] is
    accepted, the field [n] holds the argument [mu] and the field [mu]
    holds the argument [n]. *)
Theorem gngd_init_swaps_arguments :
  FilterGNGD.init (Int 2) (Float (1 # 10)) 1 (1 # 10) (Some (WSeq [0; 0]))
    = Raise InvalidWeightSpec ∧
  ∀ (n0 mu0 : num Q) (ep r : Q) (l : list Q) (f : FilterGNGD.obj Q),
    FilterGNGD.init n0 mu0 ep r (Some (WSeq l)) = Ok f →
    n f = mu0 ∧ mu f = n0.
Proof.
  split; [reflexivity|]. intros n0 mu0 ep r l f Hf.
  by apply gngd_init_fields in Hf as (? & ? & _).
Qed.

(** C9: on [gngd0] with four samples, [pretrained_run] returns as third
    component the two-row weight history of its last [run], whose rows are
    the weights before each update; the final weights [[3, 1]] are not in
    it.  In general the third component is the [w_history] the call
    leaves in the filter. *)
Theorem pretrained_run_third_component :
  FilterGNGD.pretrained_run d4 x4 (1 # 2) 1 gngd0 =
    (gngd0_pretrained, Ok ([1; 2], [2; -1], [[1; 2]; [3; 2]])) ∧
  w gngd0_pretrained = [3; 1] ∧
  ∀ d x ntrain epochs (f f' : FilterGNGD.obj Q) y e h,
    FilterGNGD.pretrained_run d x ntrain epochs f = (f', Ok (y, e, h)) →
    w_history f' = Some h.
Proof.
  split; [vm_compute; reflexivity|]. split; [reflexivity|].
  intros. by eapply pretrained_run_returns_history.
Qed.



(** C4, as stated, fails: a ragged [x] whose first row has one cell makes
    [run] raise ConversionError with [n] already rebound from 2 to 1. *)
Lemma run_conversion_error_rebinds_n :
  FilterGNGD.run d2 x_ragged gngd0 = (set_n (Int 1) gngd0, Raise ConversionError) ∧
  n gngd0 = Int 2 ∧
  (FilterGNGD.run d2 x_ragged gngd0).1 ≠ gngd0.
Proof. split_and!; [reflexivity..|]. vm_compute. discriminate. Qed.

(** [gngd0] on two samples: [run] goes through and its history starts at
    the weights at entry. *)
Lemma gngd_weight_history_witness :
  FilterGNGD.run d2 x2 gngd0 = (gngd0_run, Ok (y2, e2, h2)) ∧
  h2 !! 0%nat = Some (w gngd0).
Proof.
  assert (FilterGNGD.run d2 x2 gngd0 = (gngd0_run, Ok (y2, e2, h2))) as Hrun
    by (vm_compute; reflexivity).
  split; [exact Hrun|].
  refine (proj1 (proj2 (proj2
    (gngd_weight_history gngd0 gngd0_run d2 y2 e2 x2 h2 _ Hrun)))).
  simpl. lia.
Defined.

(** The first call of the rule on [gngd0] returns and remembers its
    input. *)
Lemma gngd_learning_rule_witness :
  ∃ f' δ, FilterGNGD.learning_rule 1 [1; 0] gngd0 = (f', Ok δ) ∧
          FilterGNGD.last_x (ext f') = [1; 0].
Proof.
  destruct (gngd_learning_rule gngd0 1 [1; 0] eq_refl)
    as (f' & δ & Hr & _ & _ & _ & Hx & _).
  by exists f', δ.
Defined.

(** The first call of [adapt] on [ap0] returns with the input in column 0
    of the window. *)
Lemma ap_adapt_steps_witness :
  ∃ f', AdaptiveFilterAP.adapt 1 [1; 0] ap0 = (f', Ok tt) ∧
        AdaptiveFilterAP.x_mem (ext f') = [[1; 0]; [0; 0]].
Proof.
  assert (1 ≤ AdaptiveFilterAP.order (ext ap0))%nat as Ho by (simpl; lia).
  destruct (ap_adapt_steps ap0 1 [1; 0] z1 ap0_wf Ho eq_refl)
    as (_ & _ & _ & f' & Had & HX & _).
  { vm_compute. reflexivity. }
  exists f'. split; [exact Had|]. rewrite HX. reflexivity.
Defined.

(** Two calls of [adapt] on [ap0], whose window has two columns: column 0
    holds the second input, column 1 the first. *)
Lemma ap_window_columns_witness :
  AdaptiveFilterAP.adapt_all d2 x2 ap0 = (ap2, Ok tt) ∧
  x2 !! 1%nat = Some (column 0 (AdaptiveFilterAP.x_mem (ext ap2))) ∧
  x2 !! 0%nat = Some (column 1 (AdaptiveFilterAP.x_mem (ext ap2))).
Proof.
  assert (AdaptiveFilterAP.adapt_all d2 x2 ap0 = (ap2, Ok tt)) as Hall
    by (vm_compute; reflexivity).
  assert (1 ≤ AdaptiveFilterAP.order (ext ap0))%nat as Ho by (simpl; lia).
  assert (Forall (λ xk : vec Q,
            length xk = length (AdaptiveFilterAP.x_mem (ext ap0))) x2) as Hx
    by (repeat constructor).
  assert (AdaptiveFilterAP.order (ext ap0) ≤ length x2)%nat as Hm
    by (simpl; lia).
  split; [exact Hall|]. split.
  - apply (ap_window_columns ap0 ap2 d2 x2 ap0_wf Ho eq_refl Hx Hm Hall 0%nat).
    simpl. lia.
  - apply (ap_window_columns ap0 ap2 d2 x2 ap0_wf Ho eq_refl Hx Hm Hall 1%nat).
    simpl. lia.
Defined.
End Evaluations.

(** * Further properties *)

(** ** [run] of the GNGD filter, sample by sample *)

Ltac gngd_step :=
  cbn [bind get modify lift lift_opt ret raise rbind
       set_w set_n set_w_history set_ext w n w_history mu ext
       with_run_fields
       FilterGNGD.set_eps FilterGNGD.set_last
       FilterGNGD.eps FilterGNGD.ro FilterGNGD.last_e FilterGNGD.last_x
       fst snd negb] in *.

Section GNGDStream.
Context {F : Type} `{Numeric F}.
Import FilterGNGD.

Local Abbreviation rule := (Some FilterGNGD.learning_rule).

(** A pass of the loop is the step on the sample plus the history row. *)
Lemma gngd_body_step d x k kn h (g s' : obj F) r row xk dk :
  h !! k = Some row → x !! k = Some xk → d !! k = Some dk →
  length xk = length row →
  run_body rule d x k (with_run_fields kn (Some h) g) = (s', Ok r) ↔
  ∃ g', sample_step rule dk xk g = (g', Ok r) ∧
        s' = with_run_fields kn (Some (<[k := w g]> h)) g'.
Proof.
  intros Hrow Hx Hd Hl.
  destruct g as [w0 n0 h0 mu0 [ep r0 le lx]].
  unfold run_body, sample_step, predict, call_learning_rule,
    FilterGNGD.learning_rule, np_dot, np_iadd, with_run_fields, broadcast_to.
  unfold_monad. gngd_step. rewrite Hrow, Hx, Hd. rewrite <- Hl.
  destruct (Nat.eqb_spec (length w0) (length xk)) as [Hw|Hw].
  - destruct (length xk =? length lx); cycle 1.
    { split; [done|]. by intros (? & ? & _). }
    rewrite !Nat.eqb_refl. gngd_step.
    unfold scale. rewrite length_fmap, Hw, Nat.eqb_refl. gngd_step.
    split.
    + intros [= <- <-]. eexists. split; reflexivity.
    + intros (g' & [= <- <-] & ->). reflexivity.
  - split; [|by intros (? & ? & _)].
    destruct w0 as [|a [|]]; try done.
Qed.

(** The step on a sample, when the shapes agree. *)
Lemma gngd_sample_step_eq (dk : F) (xk : vec F) (g : obj F) :
  length (w g) = length xk → length xk = length (last_x (ext g)) →
  let yk := vdot (w g) xk in
  let ek := sub dk yk in
  let r := ext g in
  let den := add (vdot (last_x r) (last_x r)) (eps r) in
  let eps' :=
    sub (eps r)
      (div (mul (mul (mul (mul (ro r) (val (mu g))) ek) (last_e r))
              (vdot xk (last_x r)))
         (mul den den)) in
  let δ := scale (mul (div (val (mu g)) (add eps' (vdot xk xk))) ek) xk in
  sample_step rule dk xk g =
    (set_w (vadd (w g) δ) (set_last ek xk (set_eps eps' g)), Ok (yk, ek, δ)).
Proof.
  intros Hw Hx. destruct g as [w0 n0 h0 mu0 [ep r0 le lx]].
  unfold sample_step, predict, call_learning_rule, FilterGNGD.learning_rule,
    np_dot, np_iadd, broadcast_to, scale.
  unfold_monad. gngd_step.
  rewrite Hw, <- Hx, !Nat.eqb_refl. gngd_step.
  rewrite length_fmap, Nat.eqb_refl. reflexivity.
Qed.

Lemma gngd_sample_step_shapes (dk : F) (xk : vec F) (g g' : obj F) r :
  sample_step rule dk xk g = (g', Ok r) →
  length (w g) = length xk ∧ length xk = length (last_x (ext g)).
Proof.
  destruct g as [w0 n0 h0 mu0 [ep r0 le lx]].
  unfold sample_step, predict, call_learning_rule, FilterGNGD.learning_rule,
    np_dot.
  unfold_monad. gngd_step.
  destruct (Nat.eqb_spec (length w0) (length xk)); [|done].
  destruct (Nat.eqb_spec (length xk) (length lx)); [|done]. done.
Qed.

Lemma gngd_sample_step_raises (dk : F) (xk : vec F) (g : obj F) :
  ¬ (length (w g) = length xk ∧ length xk = length (last_x (ext g))) →
  sample_step rule dk xk g = (g, Raise not_aligned).
Proof.
  destruct g as [w0 n0 h0 mu0 [ep r0 le lx]].
  unfold sample_step, predict, call_learning_rule, FilterGNGD.learning_rule,
    np_dot.
  unfold_monad. gngd_step. intros Hn.
  destruct (Nat.eqb_spec (length w0) (length xk)); [|done].
  destruct (Nat.eqb_spec (length xk) (length lx)); [|done]. tauto.
Qed.

(** What a step that returns leaves behind. *)
Lemma gngd_sample_step_ok (dk : F) (xk : vec F) (g g' : obj F) yk ek δ :
  sample_step rule dk xk g = (g', Ok (yk, ek, δ)) →
  yk = vdot (w g) xk ∧ ek = sub dk yk ∧
  w g' = vadd (w g) δ ∧ length (w g') = length (w g) ∧
  last_x (ext g') = xk ∧ last_e (ext g') = ek ∧ ro (ext g') = ro (ext g) ∧
  mu g' = mu g ∧ n g' = n g ∧ w_history g' = w_history g.
Proof.
  intros Hs. pose proof (gngd_sample_step_shapes _ _ _ _ _ Hs) as [Hw Hx].
  rewrite gngd_sample_step_eq in Hs by done. injection Hs as <- <- <- <-.
  split_and!; try done. gngd_step.
  unfold vadd, scale. rewrite length_zip_with, length_fmap. lia.
Qed.

Lemma take_S_insert {A} (l : list A) (k : nat) (v : A) :
  k < length l → take (S k) (<[k := v]> l) = take k l ++ [v].
Proof.
  intros Hk. erewrite take_S_r by by apply list_lookup_insert_eq.
  by rewrite take_insert_ge by lia.
Qed.

Lemma sample_steps_cons {R} rl (dk : F) (d : vec F) (xk : vec F)
    (x : list (vec F)) (g g' : self F R) tr :
  sample_steps rl (dk :: d) (xk :: x) g = (g', Ok tr) ↔
  ∃ g1 r tr', sample_step rl dk xk g = (g1, Ok r) ∧
              sample_steps rl d x g1 = (g', Ok tr') ∧
              tr = (w g, r.1.1, r.1.2) :: tr'.
Proof.
  cbn [sample_steps]. unfold bind at 1. unfold get at 1.
  rewrite bind_ok. split.
  - intros (g1 & r & Hs & Hrest). apply bind_ok in Hrest
      as (g2 & tr' & Hrest & [= <- <-]). by exists g1, r, tr'.
  - intros (g1 & r & tr' & Hs & Hrest & ->). exists g1, r. split; [done|].
    by rewrite (bind_eq _ _ _ _ _ Hrest).
Qed.

(** The loop of [run] from index [k] on is the passes over the samples
    from [k] on; the arrays keep what was written below [k]. *)
Lemma gngd_loop_steps d x c kn :
  (∀ i xi, x !! i = Some xi → length xi = c) → length d = length x →
  ∀ len k y e h (g s' : obj F) y' e',
    k + len = length x →
    length y = length x → length e = length x → length h = length x →
    Forall (λ row, length row = c) h →
    run_loop rule d x (seq k len) y e (with_run_fields kn (Some h) g)
      = (s', Ok (y', e')) ↔
    ∃ g' tr,
      sample_steps rule (drop k d) (drop k x) g = (g', Ok tr) ∧
      s' = with_run_fields kn (Some (take k h ++ trace_w tr)) g' ∧
      y' = take k y ++ trace_y tr ∧ e' = take k e ++ trace_e tr.
Proof.
  intros Hx Hd. induction len as [|len IH];
    intros k y e h g s' y' e' Hk Hy He Hh Hc.
  - rewrite (drop_ge x), (drop_ge d) by lia. cbn [seq run_loop sample_steps].
    unfold ret. split.
    + intros [= <- <- <-]. exists g, [].
      rewrite !app_nil_r, !take_ge by lia. done.
    + intros (g' & tr & [= <- <-] & -> & -> & ->).
      rewrite !app_nil_r, !take_ge by lia. done.
  - destruct (lookup_lt_is_Some_2 x k) as [xk Hxk]; [lia|].
    destruct (lookup_lt_is_Some_2 d k) as [dk Hdk]; [lia|].
    destruct (lookup_lt_is_Some_2 h k) as [row Hrow]; [lia|].
    assert (length row = c) as Hrc by (by eapply Forall_lookup_1 in Hc).
    assert (length xk = length row) as Hxr by (rewrite Hrc; by eapply Hx).
    rewrite (drop_S x xk k Hxk), (drop_S d dk k Hdk).
    cbn [seq run_loop]. rewrite bind_ok.
    split.
    + intros (s1 & r & Hb & Hloop).
      eapply gngd_body_step in Hb as (g1 & Hs & ->); [|done..].
      pose proof (gngd_sample_step_shapes _ _ _ _ _ Hs) as [Hw _].
      eapply IH in Hloop as (g' & tr' & Hst & -> & -> & ->);
        [|lia|by rewrite length_insert..|].
      2:{ apply Forall_insert; [done|]. rewrite Hw. by eapply Hx. }
      exists g', ((w g, r.1.1, r.1.2) :: tr').
      split; [apply sample_steps_cons; by exists g1, r, tr'|].
      rewrite !take_S_insert by lia.
      unfold trace_w, trace_y, trace_e. rewrite !fmap_cons, <- !app_assoc.
      done.
    + intros (g' & tr & Hst0 & -> & -> & ->).
      apply sample_steps_cons in Hst0 as (g1 & r & tr' & Hs & Hst & ->).
      pose proof (gngd_sample_step_shapes _ _ _ _ _ Hs) as [Hw _].
      exists (with_run_fields kn (Some (<[k := w g]> h)) g1), r. split.
      { eapply gngd_body_step; [done..|]. by exists g1. }
      eapply IH; [lia|by rewrite length_insert..| |].
      { apply Forall_insert; [done|]. rewrite Hw. by eapply Hx. }
      exists g', tr'. split; [done|].
      rewrite !take_S_insert by lia.
      unfold trace_w, trace_y, trace_e. rewrite !fmap_cons, <- !app_assoc.
      done.
Qed.

(** [run], past its validation, is the passes over the samples. *)
Lemma gngd_run_steps (f f' : obj F) (d y e : vec F) (x : list (vec F))
    (h : matrix F) (x0 : vec F) :
  length d = length x → x !! 0 = Some x0 → rectangular x = true →
  run d x f = (f', Ok (y, e, h)) ↔
  ∃ g tr,
    sample_steps rule d x f = (g, Ok tr) ∧
    f' = with_run_fields (Int (Z.of_nat (length x0))) (Some h) g ∧
    y = trace_y tr ∧ e = trace_e tr ∧ h = trace_w tr.
Proof.
  intros Hl Hx0 Hrect. unfold run. erewrite run_validated by done.
  assert (loop_entry x f =
          with_run_fields (Int (Z.of_nat (length x0)))
            (Some (zeros2 (length x) (length x0))) f) as ->
    by (unfold loop_entry; by rewrite Hx0).
  pose proof (gngd_loop_steps d x (length x0) (Int (Z.of_nat (length x0)))
                (rectangular_rows x x0 Hrect Hx0) Hl (length x) 0
                (zeros (length x)) (zeros (length x))
                (zeros2 (length x) (length x0)) f) as Hloop.
  rewrite bind_ok. split.
  - intros (s' & [y' e'] & Hrun & Hret).
    apply Hloop in Hrun as (g & tr & Hst & -> & -> & ->);
      [|lia|unfold zeros; by rewrite length_replicate..
       |unfold zeros2; by rewrite length_replicate|apply zeros2_rows].
    rewrite !drop_0 in Hst. unfold_monad. cbn in Hret.
    injection Hret as <- <- <- <-. by exists g, tr.
  - intros (g & tr & Hst & -> & -> & -> & ->).
    eexists _, (trace_y tr, trace_e tr). split.
    + apply Hloop;
        [lia|unfold zeros; by rewrite length_replicate..
        |unfold zeros2; by rewrite length_replicate|apply zeros2_rows|].
      rewrite !drop_0. exists g, tr. split_and!; [done|reflexivity..].
    + reflexivity.
Qed.

(** A run that returns had a valid batch. *)
Lemma gngd_run_ok_valid (f f' : obj F) (d y e : vec F) (x : list (vec F))
    (h : matrix F) :
  run d x f = (f', Ok (y, e, h)) →
  length d = length x ∧ rectangular x = true ∧ ∃ x0, x !! 0 = Some x0.
Proof.
  intros Hrun. unfold run in Hrun.
  destruct (decide (length d = length x)) as [Hl|Hl]; cycle 1.
  { by rewrite run_length_mismatch in Hrun. }
  destruct (x !! 0) as [x0|] eqn:Hx0; cycle 1.
  { unfold AdaptiveFilter.run in Hrun. rewrite Hl, Nat.eqb_refl in Hrun.
    cbn [negb] in Hrun. unfold_monad. by rewrite Hx0 in Hrun. }
  destruct (rectangular x) eqn:Hrect; cycle 1.
  { erewrite run_ragged in Hrun; [done..|]. unfold np_array2. by rewrite Hrect. }
  eauto.
Qed.

Lemma sample_steps_length {R} rl (d : vec F) (x : list (vec F))
    (g g' : self F R) tr :
  sample_steps rl d x g = (g', Ok tr) →
  length tr = length d `min` length x.
Proof.
  revert x g tr. induction d as [|dk d IH]; intros [|xk x] g tr; try by intros [= <- <-].
  intros Hs. apply sample_steps_cons in Hs as (g1 & r & tr' & _ & Hs & ->).
  apply IH in Hs. simpl. lia.
Qed.

(** The passes over two batches in a row are the passes over their
    concatenation. *)
Lemma sample_steps_app {R} rl (d1 d2 : vec F) (x1 x2 : list (vec F))
    (g g' : self F R) tr :
  length d1 = length x1 →
  sample_steps rl (d1 ++ d2) (x1 ++ x2) g = (g', Ok tr) ↔
  ∃ g1 tr1 tr2,
    sample_steps rl d1 x1 g = (g1, Ok tr1) ∧
    sample_steps rl d2 x2 g1 = (g', Ok tr2) ∧ tr = tr1 ++ tr2.
Proof.
  revert x1 g tr. induction d1 as [|dk d1 IH]; intros [|xk x1] g tr Hl;
    try done.
  - simpl. split.
    + intros Hs. by exists g, [], tr.
    + by intros (g1 & tr1 & tr2 & [= <- <-] & Hs & ->).
  - simpl app. rewrite sample_steps_cons. split.
    + intros (ga & r & tr' & Hs & Hrest & ->).
      apply IH in Hrest as (g1 & tr1 & tr2 & H1 & H2 & ->); [|by simplify_eq/=].
      exists g1, ((w g, r.1.1, r.1.2) :: tr1), tr2. split; [|done].
      apply sample_steps_cons. by exists ga, r, tr1.
    + intros (g1 & tr1 & tr2 & H1 & H2 & ->).
      apply sample_steps_cons in H1 as (ga & r & tr1' & Hs & H1 & ->).
      exists ga, r, (tr1' ++ tr2). split; [done|]. split; [|done].
      apply IH; [by simplify_eq/=|]. by exists g1, tr1', tr2.
Qed.

(** The passes neither read nor write [n] and [w_history]. *)
Lemma gngd_sample_step_frame (dk : F) (xk : vec F) kn hh (g : obj F) :
  sample_step rule dk xk (with_run_fields kn hh g) =
    (with_run_fields kn hh (sample_step rule dk xk g).1,
     (sample_step rule dk xk g).2).
Proof.
  destruct (decide (length (w g) = length xk
                    ∧ length xk = length (last_x (ext g)))) as [[Hw Hx]|Hn].
  - rewrite !gngd_sample_step_eq by done. reflexivity.
  - rewrite !gngd_sample_step_raises by done. reflexivity.
Qed.

Lemma gngd_sample_steps_frame (d : vec F) (x : list (vec F)) kn hh
    (g g' : obj F) tr :
  sample_steps rule d x g = (g', Ok tr) →
  sample_steps rule d x (with_run_fields kn hh g)
    = (with_run_fields kn hh g', Ok tr).
Proof.
  revert x g tr. induction d as [|dk d IH]; intros [|xk x] g tr;
    try by intros [= <- <-].
  intros Hs. apply sample_steps_cons in Hs as (g1 & r & tr' & Hs & Hrest & ->).
  apply sample_steps_cons. exists (with_run_fields kn hh g1), r, tr'.
  split_and!; [|by apply IH|done].
  rewrite gngd_sample_step_frame, Hs. reflexivity.
Qed.

Lemma gngd_sample_steps_unframe (d : vec F) (x : list (vec F)) kn hh
    (g s' : obj F) tr :
  sample_steps rule d x (with_run_fields kn hh g) = (s', Ok tr) →
  ∃ g', sample_steps rule d x g = (g', Ok tr) ∧ s' = with_run_fields kn hh g'.
Proof.
  revert x g s' tr. induction d as [|dk d IH]; intros [|xk x] g s' tr;
    try (intros [= <- <-]; by exists g).
  intros Hs. apply sample_steps_cons in Hs as (s1 & r & tr' & Hs & Hrest & ->).
  rewrite gngd_sample_step_frame in Hs.
  destruct (sample_step rule dk xk g) as [g1 r1] eqn:Hg. simpl in Hs.
  injection Hs as <- ->.
  apply IH in Hrest as (g' & Hrest & ->). exists g'. split; [|done].
  apply sample_steps_cons. by exists g1, r, tr'.
Qed.

(** Each entry of the trace is the prediction and the error on its sample,
    with the weights of the entry. *)
Lemma gngd_steps_trace (d : vec F) (x : list (vec F)) (g g' : obj F) tr :
  sample_steps rule d x g = (g', Ok tr) →
  ∀ i t, tr !! i = Some t →
    ∃ xi di, x !! i = Some xi ∧ d !! i = Some di ∧
             t.1.2 = vdot t.1.1 xi ∧ t.2 = sub di t.1.2.
Proof.
  revert x g tr. induction d as [|dk d IH]; intros [|xk x] g tr;
    try by intros [= <- <-].
  intros Hs. apply sample_steps_cons in Hs as (g1 & [[yk ek] δ] & tr' & Hs & Hrest & ->).
  apply gngd_sample_step_ok in Hs as (-> & -> & _).
  intros [|i] t; simpl.
  - intros [= <-]. by exists xk, dk.
  - intros Ht. by eapply IH.
Qed.

(** What the passes leave in the filter. *)
Lemma gngd_steps_final (d : vec F) (x : list (vec F)) (g g' : obj F) tr :
  sample_steps rule d x g = (g', Ok tr) →
  mu g' = mu g ∧ n g' = n g ∧ w_history g' = w_history g ∧
  ro (ext g') = ro (ext g) ∧ length (w g') = length (w g) ∧
  (length d = length x → ∀ xl, last x = Some xl →
     last_x (ext g') = xl ∧ last (trace_e tr) = Some (last_e (ext g'))).
Proof.
  revert x g tr. induction d as [|dk d IH]; intros [|xk x] g tr;
    try (intros [= <- <-]; split_and!; try done; by intros _ xl).
  intros Hs.
  apply sample_steps_cons in Hs as (g1 & [[yk ek] δ] & tr' & Hs & Hrest & ->).
  apply gngd_sample_step_ok in Hs
    as (_ & _ & _ & Hlw & Hlx & Hle & Hro & Hmu & Hn & Hh).
  pose proof Hrest as Hrest'.
  apply IH in Hrest as (Hmu' & Hn' & Hh' & Hro' & Hlw' & Hlast).
  split_and!; try congruence.
  intros Hl xl Hxl. simpl in Hl.
  destruct x as [|xk' x].
  - destruct d; [|done]. injection Hrest' as <- <-. simpl in *.
    injection Hxl as <-. split; [done|]. by rewrite Hle.
  - destruct (Hlast ltac:(lia) xl) as [-> Hle']; [done|]. split; [done|].
    unfold trace_e in *. rewrite fmap_cons.
    apply sample_steps_length in Hrest'. destruct tr'; [simpl in *; lia|].
    done.
Qed.

(** On samples of the filter's size every pass goes through. *)
Lemma gngd_steps_total m (d : vec F) (x : list (vec F)) (g : obj F) :
  gngd_sized m g → Forall (λ xi, length xi = m) x →
  ∃ g' tr, sample_steps rule d x g = (g', Ok tr) ∧ gngd_sized m g'.
Proof.
  revert x g. induction d as [|dk d IH]; intros [|xk x] g Hg Hx;
    try (by exists g, []).
  apply Forall_cons in Hx as [Hxk Hx]. destruct Hg as [Hw Hlx].
  destruct (sample_step rule dk xk g) as [g1 [[[yk ek] δ]|err]] eqn:Hs; cycle 1.
  { rewrite gngd_sample_step_eq in Hs by lia. done. }
  pose proof (gngd_sample_step_ok _ _ _ _ _ _ _ Hs)
    as (_ & _ & _ & Hlw & Hlx' & _).
  destruct (IH x g1) as (g' & tr & Hrest & Hg'); [split; congruence|done|].
  exists g', ((w g, yk, ek) :: tr). split; [|done].
  apply sample_steps_cons. by exists g1, (yk, ek, δ), tr.
Qed.

Lemma rectangular_Forall m (x : list (vec F)) :
  Forall (λ xi, length xi = m) x → rectangular x = true.
Proof.
  destruct x as [|x0 x]; [done|]. intros Hx. apply Forall_cons in Hx as [<- Hx].
  simpl. apply forallb_forall. intros xi Hxi. apply Nat.eqb_eq.
  rewrite Forall_forall in Hx. apply Hx. by apply list_elem_of_In.
Qed.

(** A pass that raises has not touched the weights nor the state of the
    rule. *)
Lemma gngd_run_body_raises_keeps d x k (s s' : obj F) err :
  run_body rule d x k s = (s', Raise err) →
  w s' = w s ∧ ext s' = ext s.
Proof.
  destruct s as [w0 n0 h0 mu0 [ep r0 le lx]].
  unfold run_body, predict, call_learning_rule, FilterGNGD.learning_rule,
    np_dot, np_iadd.
  unfold_monad. gngd_step. intros Hb.
  repeat (case_match; simplify_eq; gngd_step); try done.
  all: try match goal with
    | Hq : Nat.eqb ?a ?a = false |- _ => by rewrite Nat.eqb_refl in Hq
    end.
  all: match goal with
    | Hq : broadcast_to _ _ = Raise _ |- _ =>
        unfold broadcast_to, scale in Hq; rewrite length_fmap in Hq
    end.
  all: repeat match goal with
         | Hq : Nat.eqb _ _ = true |- _ => apply Nat.eqb_eq in Hq
         end.
  all: match goal with
    | Hq : (if ?b then _ else _) = Raise _ |- _ =>
        destruct b eqn:Hb'; [done|apply Nat.eqb_neq in Hb'; congruence]
    end.
Qed.

(** X1: on a valid batch, [run] of a GNGD filter returns exactly when the
    sample-by-sample passes (predict, error, rule, weight update) go
    through; it then returns their outputs, errors and pre-update weights,
    and leaves the filter they leave, with [n] and [w_history] set. *)
Theorem gngd_run_is_sample_steps (f f' : obj F) (d y e : vec F)
    (x : list (vec F)) (h : matrix F) (x0 : vec F) :
  length d = length x → x !! 0 = Some x0 → rectangular x = true →
  run d x f = (f', Ok (y, e, h)) ↔
  ∃ g tr,
    sample_steps rule d x f = (g, Ok tr) ∧
    f' = with_run_fields (Int (Z.of_nat (length x0))) (Some h) g ∧
    y = trace_y tr ∧ e = trace_e tr ∧ h = trace_w tr.
Proof. apply gngd_run_steps. Qed.

(** X2: the arrays [run] returns have one entry per sample, and for every
    [k], [y[k]] is the dot product of row [k] of the history with [x[k]]
    and [e[k] = d[k] − y[k]]. *)
Theorem gngd_run_outputs (f f' : obj F) (d y e : vec F) (x : list (vec F))
    (h : matrix F) :
  run d x f = (f', Ok (y, e, h)) →
  length y = length x ∧ length e = length x ∧ length h = length x ∧
  ∀ k, k < length x →
    ∃ hk xk dk,
      h !! k = Some hk ∧ x !! k = Some xk ∧ d !! k = Some dk ∧
      y !! k = Some (vdot hk xk) ∧ e !! k = Some (sub dk (vdot hk xk)).
Proof.
  intros Hrun.
  destruct (gngd_run_ok_valid _ _ _ _ _ _ _ Hrun) as (Hl & Hrect & x0 & Hx0).
  eapply gngd_run_steps in Hrun as (g & tr & Hst & _ & -> & -> & ->);
    [|done..].
  pose proof (sample_steps_length _ _ _ _ _ _ Hst) as Hlen.
  unfold trace_y, trace_e, trace_w. rewrite !length_fmap.
  split_and!; [lia..|].
  intros k Hk. destruct (lookup_lt_is_Some_2 tr k) as [[[hk yk] ek] Ht]; [lia|].
  destruct (gngd_steps_trace _ _ _ _ _ Hst k _ Ht)
    as (xk & dk & Hxk & Hdk & Hy & He).
  simpl in *. subst yk ek.
  exists hk, xk, dk. rewrite !list_lookup_fmap, Ht. done.
Qed.

(** X3: [run] returns on every non-empty batch whose [d] and [x] have the
    same length and whose rows have the length of the filter's weights and
    remembered input; the filter keeps that size and [n] is that
    length. *)
Theorem gngd_run_total (m : nat) (f : obj F) (d : vec F) (x : list (vec F)) :
  gngd_sized m f → 1 ≤ length x → length d = length x →
  Forall (λ xi, length xi = m) x →
  ∃ f' y e h,
    run d x f = (f', Ok (y, e, h)) ∧ gngd_sized m f' ∧
    n f' = Int (Z.of_nat m).
Proof.
  intros Hf HN Hl Hx.
  destruct (lookup_lt_is_Some_2 x 0) as [x0 Hx0]; [lia|].
  assert (length x0 = m) as Hx0m by (by eapply Forall_lookup_1 in Hx).
  destruct (gngd_steps_total m d x f Hf Hx) as (g & tr & Hst & Hg).
  exists (with_run_fields (Int (Z.of_nat (length x0))) (Some (trace_w tr)) g),
    (trace_y tr), (trace_e tr), (trace_w tr).
  split_and!.
  - eapply gngd_run_steps; [done|done|by eapply rectangular_Forall|].
    by exists g, tr.
  - exact Hg.
  - by rewrite <- Hx0m.
Qed.

(** X4: after a [run] that returns, [w_history] is the returned history,
    [n] is the width of the rows, [mu] and [ro] are unchanged, the weights
    have the length they had, [last_x] is the last row of [x] and [last_e]
    the last entry of [e]. *)
Theorem gngd_run_final_state (f f' : obj F) (d y e : vec F)
    (x : list (vec F)) (h : matrix F) (xl : vec F) :
  run d x f = (f', Ok (y, e, h)) → last x = Some xl →
  w_history f' = Some h ∧ n f' = Int (Z.of_nat (length xl)) ∧
  mu f' = mu f ∧ ro (ext f') = ro (ext f) ∧
  length (w f') = length (w f) ∧
  last_x (ext f') = xl ∧ last e = Some (last_e (ext f')).
Proof.
  intros Hrun Hxl.
  destruct (gngd_run_ok_valid _ _ _ _ _ _ _ Hrun) as (Hl & Hrect & x0 & Hx0).
  eapply gngd_run_steps in Hrun as (g & tr & Hst & -> & -> & -> & ->);
    [|done..].
  destruct (gngd_steps_final _ _ _ _ _ Hst)
    as (Hmu & _ & _ & Hro & Hlw & Hlast).
  destruct (Hlast Hl xl Hxl) as [Hlx Hle].
  assert (length xl = length x0) as ->.
  { rewrite last_lookup in Hxl. by eapply rectangular_rows. }
  split_and!; done.
Qed.

(** X5: two runs in a row on batches of the same width are one run on the
    concatenated batch: the same outputs and errors end to end, the two
    histories end to end, and the same final filter, whose [w_history] is
    then the whole history. *)
Theorem gngd_run_app (f f1 f2 : obj F) (d1 d2 y1 y2 e1 e2 : vec F)
    (x1 x2 : list (vec F)) (h1 h2 : matrix F) (a1 a2 : vec F) :
  x1 !! 0 = Some a1 → x2 !! 0 = Some a2 → length a1 = length a2 →
  run d1 x1 f = (f1, Ok (y1, e1, h1)) →
  run d2 x2 f1 = (f2, Ok (y2, e2, h2)) →
  run (d1 ++ d2) (x1 ++ x2) f =
    (set_w_history (Some (h1 ++ h2)) f2,
     Ok (y1 ++ y2, e1 ++ e2, h1 ++ h2)).
Proof.
  intros Ha1 Ha2 Ha Hr1 Hr2.
  destruct (gngd_run_ok_valid _ _ _ _ _ _ _ Hr1) as (Hl1 & Hrect1 & _).
  destruct (gngd_run_ok_valid _ _ _ _ _ _ _ Hr2) as (Hl2 & Hrect2 & _).
  eapply gngd_run_steps in Hr1 as (g1 & tr1 & Hst1 & Hf1 & Hy1 & He1 & Hh1);
    [|done..].
  eapply gngd_run_steps in Hr2 as (g2 & tr2 & Hst2 & Hf2 & Hy2 & He2 & Hh2);
    [|done..].
  subst f1 y1 e1 h1 f2 y2 e2 h2.
  apply gngd_sample_steps_unframe in Hst2 as (g2' & Hst2 & ->).
  rewrite <- Ha.
  assert (rectangular (x1 ++ x2) = true) as Hrect.
  { apply (rectangular_Forall (length a1)). apply Forall_app. split.
    - apply Forall_lookup. intros i xi Hi.
      exact (rectangular_rows x1 a1 Hrect1 Ha1 i xi Hi).
    - apply Forall_lookup. intros i xi Hi. simpl. rewrite Ha.
      exact (rectangular_rows x2 a2 Hrect2 Ha2 i xi Hi). }
  eapply gngd_run_steps;
    [by rewrite !length_app, Hl1, Hl2
    |by rewrite lookup_app_l by (by eapply lookup_lt_Some)|done|].
  exists g2', (tr1 ++ tr2). split_and!.
  - apply sample_steps_app; [done|]. by exists g1, tr1, tr2.
  - reflexivity.
  - unfold trace_y. by rewrite fmap_app.
  - unfold trace_e. by rewrite fmap_app.
  - unfold trace_w. by rewrite fmap_app.
Qed.

(** X6: on a valid batch whose rows do not have the length of the weights
    and of the remembered input, [run] raises a ValueError of the array
    library at the first pass, and neither the weights nor the state of
    the rule have changed. *)
Theorem gngd_run_shape_mismatch (f : obj F) (d : vec F) (x : list (vec F))
    (x0 : vec F) :
  length d = length x → x !! 0 = Some x0 → rectangular x = true →
  ¬ gngd_sized (length x0) f →
  ∃ s' err,
    run d x f = (s', Raise err) ∧
    (err = no_broadcast ∨ err = not_aligned) ∧
    w s' = w f ∧ ext s' = ext f.
Proof.
  intros Hl Hx0 Hrect Hn. unfold run. erewrite run_validated by done.
  assert (loop_entry x f =
          with_run_fields (Int (Z.of_nat (length x0)))
            (Some (zeros2 (length x) (length x0))) f) as ->
    by (unfold loop_entry; by rewrite Hx0).
  assert (0 < length x) as HN by (by eapply lookup_lt_Some).
  destruct (length x) as [|N] eqn:HN'; [lia|].
  cbn [seq run_loop].
  destruct (lookup_lt_is_Some_2 d 0) as [d0 Hd0]; [lia|].
  set (s0 := with_run_fields _ _ f).
  destruct (run_body rule d x 0 s0) as [s1 [r|err]] eqn:Hb; subst s0.
  - exfalso. apply Hn.
    eapply gngd_body_step in Hb as (g1 & Hs & _); [|by simpl|done|done|].
    2:{ unfold zeros. by rewrite length_replicate. }
    apply gngd_sample_step_shapes in Hs as [Hw Hx]. split; congruence.
  - exists s1, err. rewrite (bind_raise _ _ _ _ _ (bind_raise _ _ _ _ _ Hb)).
    pose proof (gngd_run_body_raises_keeps _ _ _ _ _ _ Hb) as [Hw He].
    split_and!; try done.
    clear Hw He. revert Hb.
    unfold run_body, predict, call_learning_rule, with_run_fields.
    unfold_monad. gngd_step. rewrite Hx0, Hd0. simpl.
    intros Hb. repeat (case_match; simplify_eq);
      eauto using broadcast_to_raises, np_dot_raises, np_iadd_raises,
        learning_rule_raises.
Qed.
End GNGDStream.

(** ** More on the affine-projection filter *)

Section APMore.
Context {F : Type} `{Numeric F}.
Import AdaptiveFilterAP.

(** X7: a filter the constructor returns has the shapes its methods rely
    on: one weight per row of [x_mem], [order] columns, [order] cells in
    [d_mem], the identity and [eps] times the identity; the window and the
    targets are all zero, and [w_history], [y_mem], [e_mem] are unset. *)
Theorem ap_init_shapes (mu0 n0 k : num F) (ws : weight_spec F) (ep : F)
    (f : obj F) :
  sampler_sized →
  init mu0 n0 ws k ep = Ok f →
  ap_wf f ∧ as_size k = Ok (order (ext f)) ∧
  x_mem (ext f) = zeros2 (length (w f)) (order (ext f)) ∧
  d_mem (ext f) = zeros (order (ext f)) ∧
  mu f = mu0 ∧ n f = n0 ∧ eps (ext f) = ep ∧
  w_history f = None ∧ y_mem (ext f) = None ∧ e_mem (ext f) = None.
Proof.
  intros Hsampler.
  unfold init, AdaptiveFilter.init, init_weights, rbind.
  destruct (num_eqb n0 (Int (-1))); [done|].
  destruct (match ws with WStr _ => _ | _ => _ end) as [l|] eqn:Hw;
    [|done].
  ap_step.
  destruct (as_size n0) as [rows|] eqn:Hrows; [|done].
  destruct (as_size k) as [c|] eqn:Hc; [|done].
  intros [= <-]. unfold ap_wf. ap_step.
  assert (length l = rows) as Hlen.
  { destruct ws as [s|l0|k0]; cbn [py_len np_array_float64] in Hw.
    - unfold np_random_normal, np_zeros, rbind in Hw. rewrite Hrows in Hw.
      destruct (String.eqb s "random").
      + injection Hw as <-. apply Hsampler.
      + destruct (String.eqb s "zeros"); [|done]. injection Hw as <-.
        unfold zeros. apply length_replicate.
    - destruct (num_eqb _ n0) eqn:Hn; [|done]. injection Hw as <-.
      destruct n0 as [z|]; [|done]. unfold as_size in Hrows. simpl in Hn.
      destruct (Z.ltb_spec z 0); [done|]. injection Hrows as <-.
      apply Z.eqb_eq in Hn. lia.
    - by destruct (num_eqb _ n0). }
  unfold zeros2, zeros. rewrite !length_replicate.
  split_and!; try done; try congruence.
  apply Forall_replicate. by rewrite length_replicate.
Qed.

(** One call of [adapt] that returns, with everything it keeps. *)
Lemma ap_adapt_keeps (d : F) (x : vec F) (f f' : obj F) :
  ap_wf f → 1 ≤ order (ext f) → length x = length (x_mem (ext f)) →
  adapt d x f = (f', Ok tt) →
  ap_wf f' ∧ order (ext f') = order (ext f) ∧
  length (x_mem (ext f')) = length (x_mem (ext f)) ∧
  length (w f') = length (w f) ∧ eps (ext f') = eps (ext f) ∧
  mu f' = mu f ∧ n f' = n f ∧ w_history f' = w_history f ∧
  d_mem (ext f') = slide_d d (d_mem (ext f)).
Proof.
  intros Hwf Ho Hx Had.
  pose proof (ap_adapt_ok d x f f' Hwf Ho Hx Had) as (Hwf' & Ho' & HX).
  rewrite ap_adapt_eq in Had by done.
  destruct (ap_delta _ _ _) as [δ|err]; [|done]. injection Had as <-.
  split_and!; try done.
  - ap_step. unfold ap_window. ap_step. by rewrite length_slide_x.
  - destruct Hwf' as (_ & Hw' & _). destruct Hwf as (_ & Hw & _).
    rewrite Hw', Hw. unfold ap_window. ap_step. by rewrite length_slide_x.
Qed.

(** X8: calls of [adapt] that return keep the shapes of the filter: the
    order, the length of the weights, [eps], [mu], [n] and [w_history] are
    what they were, and the filter is still well shaped. *)
Theorem ap_adapt_all_keeps_shapes (d : vec F) (x : list (vec F))
    (f f' : obj F) :
  ap_wf f → 1 ≤ order (ext f) →
  Forall (λ xk, length xk = length (x_mem (ext f))) x →
  adapt_all d x f = (f', Ok tt) →
  ap_wf f' ∧ order (ext f') = order (ext f) ∧
  length (w f') = length (w f) ∧ eps (ext f') = eps (ext f) ∧
  mu f' = mu f ∧ n f' = n f ∧ w_history f' = w_history f.
Proof.
  revert d f. induction x as [|xk x IH]; intros [|dk d] f Hwf Ho Hx;
    try (intros [= <-]; done).
  cbn [adapt_all]. intros Hall.
  apply bind_ok in Hall as (f1 & [] & Had & Hall).
  apply Forall_cons in Hx as [Hxk Hx].
  apply ap_adapt_keeps in Had
    as (Hwf1 & Ho1 & HX1 & Hw1 & He1 & Hm1 & Hn1 & Hh1 & _); [|done..].
  apply IH in Hall as (Hwf' & Ho' & Hw' & He' & Hm' & Hn' & Hh');
    [|done|lia|by rewrite HX1].
  split_and!; congruence.
Qed.

(** X9: on a well-shaped filter and an input of the right length, [adapt]
    returns exactly when the solver does; when the solver raises, [adapt]
    raises the same exception with the weights untouched, although the
    window, the targets, [y_mem] and [e_mem] already hold the new
    sample. *)
Theorem ap_adapt_solver_failure (d : F) (x : vec F) (f : obj F) :
  ap_wf f → 1 ≤ order (ext f) → length x = length (x_mem (ext f)) →
  let c := order (ext f) in
  let X := slide_x x (x_mem (ext f)) in
  let A := madd (matmul c (transpose c X) X)
             (mscale (eps (ext f)) (identity c)) in
  is_ok (adapt d x f).2 = is_ok (linalg_solve A (identity c)) ∧
  ∀ err, linalg_solve A (identity c) = Raise err →
    adapt d x f = (ap_window d x f, Raise err) ∧
    w (ap_window d x f) = w f ∧
    x_mem (ext (ap_window d x f)) = X ∧
    d_mem (ext (ap_window d x f)) = slide_d d (d_mem (ext f)).
Proof.
  intros Hwf Ho Hx c X A.
  pose proof Hwf as (_ & _ & _ & _ & Hide & Hide_eps).
  rewrite ap_adapt_eq by done.
  change (ap_delta (ap_window d x f)) with (ap_delta f).
  unfold ap_delta, rbind. rewrite Hide, Hide_eps. fold c X A.
  destruct (linalg_solve A (identity c)) as [z|err0]; split; try done.
  intros err [= <-]. done.
Qed.

Lemma column_shift_0 (X : matrix F) :
  column 0 (shift_right <$> X) = column 0 X.
Proof.
  unfold column. rewrite <- list_fmap_compose. apply list_fmap_ext.
  intros i r _. by destruct r.
Qed.

Lemma column_shift_S (X : matrix F) c j :
  S j < c → Forall (λ row, length row = c) X →
  column (S j) (shift_right <$> X) = column j X.
Proof.
  intros Hj HX. unfold column. rewrite <- list_fmap_compose.
  apply Forall_fmap_ext_1. eapply Forall_impl; [exact HX|].
  intros r Hr. simpl. destruct r as [|a r]; [simpl in *; lia|].
  rewrite shift_right_cons. simpl. rewrite lookup_take. case_decide; [done|].
  simpl in *. lia.
Qed.

(** X10: [adapt] shifts the window before it looks at the input.  With a
    window of no column it raises IndexError; with an input that has
    neither the length of the weights nor one cell it raises ValueError;
    in both cases nothing but [x_mem] has changed, and [x_mem] is already
    shifted: column 0 is repeated in column 1 and the oldest column is
    gone. *)
Theorem ap_adapt_bad_input (d : F) (x : vec F) (f : obj F) :
  (order (ext f) = 0 →
     adapt d x f = (set_x_mem (shift_right <$> x_mem (ext f)) f,
                    Raise IndexError)) ∧
  (order (ext f) ≠ 0 → length x ≠ length (x_mem (ext f)) → length x ≠ 1 →
     adapt d x f = (set_x_mem (shift_right <$> x_mem (ext f)) f,
                    Raise no_broadcast)) ∧
  column 0 (shift_right <$> x_mem (ext f)) = column 0 (x_mem (ext f)) ∧
  (∀ j, S j < order (ext f) →
     Forall (λ row, length row = order (ext f)) (x_mem (ext f)) →
     column (S j) (shift_right <$> x_mem (ext f)) = column j (x_mem (ext f))).
Proof.
  split_and!.
  - intros Ho. unfold adapt, shift_x_mem, set_x_mem_col0. unfold_monad.
    ap_step. by rewrite Ho.
  - intros Ho Hx Hx1. unfold adapt, shift_x_mem, set_x_mem_col0.
    unfold_monad. ap_step.
    destruct (Nat.eqb_spec (order (ext f)) 0); [done|].
    unfold broadcast_to. rewrite length_fmap.
    destruct (Nat.eqb_spec (length x) (length (x_mem (ext f)))); [done|].
    by destruct x as [|? [|]].
  - apply column_shift_0.
  - intros j Hj HX. by eapply column_shift_S.
Qed.

(** The targets of the window after a run of [adapt] calls. *)
Lemma slide_d_take (d : F) (v : vec F) :
  v ≠ [] → slide_d d v = take (length v) (d :: v).
Proof.
  intros Hv. unfold slide_d. rewrite slide_cell by done.
  destruct v; [done|]. simpl. by rewrite Nat.sub_0_r.
Qed.

Lemma adapt_all_targets (d : vec F) (x : list (vec F)) (f f' : obj F) :
  ap_wf f → 1 ≤ order (ext f) → length d = length x →
  Forall (λ xk, length xk = length (x_mem (ext f))) x →
  adapt_all d x f = (f', Ok tt) →
  d_mem (ext f') = take (order (ext f)) (reverse d ++ d_mem (ext f)).
Proof.
  revert d f. induction x as [|xk x IH]; intros [|dk d] f Hwf Ho Hl Hx;
    try done.
  - intros [= <-]. simpl. rewrite take_ge; [done|].
    destruct Hwf as (_ & _ & _ & -> & _). done.
  - cbn [adapt_all]. intros Hall.
    apply bind_ok in Hall as (f1 & [] & Had & Hall).
    apply Forall_cons in Hx as [Hxk Hx].
    apply ap_adapt_keeps in Had
      as (Hwf1 & Ho1 & HX1 & _ & _ & _ & _ & _ & HD1); [|done..].
    apply IH in Hall; [|done|lia|by simplify_eq/=|by rewrite HX1].
    rewrite Hall, Ho1, HD1.
    destruct Hwf as (_ & _ & _ & Hd & _).
    rewrite slide_d_take by (intros Hnil; rewrite Hnil in Hd; simpl in Hd; lia).
    rewrite Hd, take_app_take, reverse_cons, <- app_assoc. done.
Qed.

(** X11: after [m ≥ order] calls of [adapt] with targets [d_1 .. d_m],
    cell [j] of [d_mem] is [d_(m−j)] for every [j < order]: the targets
    slide like the inputs, newest first. *)
Theorem ap_window_targets (f f' : obj F) (d : vec F) (x : list (vec F)) :
  ap_wf f → 1 ≤ order (ext f) → length d = length x →
  Forall (λ xk, length xk = length (x_mem (ext f))) x →
  order (ext f) ≤ length d →
  adapt_all d x f = (f', Ok tt) →
  ∀ j, j < order (ext f) →
    d_mem (ext f') !! j = d !! (length d - 1 - j).
Proof.
  intros Hwf Ho Hl Hx Hm Hall j Hj.
  erewrite adapt_all_targets by done.
  rewrite lookup_take. case_decide; [|lia].
  rewrite lookup_app_l by (rewrite length_reverse; lia).
  rewrite reverse_lookup by lia. f_equal. lia.
Qed.

(** X12: after a call of [adapt] that returns, cell 0 of [y_mem] is the dot
    product of the input with the weights before the update and cell 0 of
    [e_mem] is the target minus it; the other cells are recomputed from
    the older columns and targets with those same weights. *)
Theorem ap_adapt_outputs (d : F) (x : vec F) (f f' : obj F) :
  ap_wf f → 1 ≤ order (ext f) → length x = length (x_mem (ext f)) →
  adapt d x f = (f', Ok tt) →
  ∃ y e,
    y_mem (ext f') = Some y ∧ e_mem (ext f') = Some e ∧
    length y = order (ext f) ∧ length e = order (ext f) ∧
    y !! 0 = Some (vdot x (w f)) ∧
    e !! 0 = Some (sub d (vdot x (w f))) ∧
    ∀ j dj, S j < order (ext f) → d_mem (ext f) !! j = Some dj →
      y !! S j = Some (vdot (column j (x_mem (ext f))) (w f)) ∧
      e !! S j = Some (sub dj (vdot (column j (x_mem (ext f))) (w f))).
Proof.
  intros Hwf Ho Hx Had.
  pose proof Hwf as (_ & _ & HX & Hd & _).
  rewrite ap_adapt_eq in Had by done.
  destruct (ap_delta _ _ _) as [δ|err]; [|done]. injection Had as <-.
  set (X := slide_x x (x_mem (ext f))).
  set (y := matvec (transpose (order (ext f)) X) (w f)).
  exists y, (vsub (slide_d d (d_mem (ext f))) y).
  assert (length y = order (ext f)) as Hly
    by (unfold y; by rewrite length_matvec, length_transpose).
  assert (∀ j, j < order (ext f) → y !! j = Some (vdot (column j X) (w f)))
    as Hy.
  { intros j Hj. unfold y, matvec.
    by rewrite list_lookup_fmap, transpose_lookup. }
  assert (d_mem (ext f) ≠ []) as Hne
    by (intros Hnil; rewrite Hnil in Hd; simpl in Hd; lia).
  split_and!; try done.
  - unfold vsub. rewrite length_zip_with, length_slide_d. lia.
  - rewrite Hy by lia. unfold X. by erewrite column_slide_0.
  - unfold vsub. rewrite lookup_zip_with, slide_d_0, Hy by (done || lia).
    simpl. unfold X. by erewrite column_slide_0.
  - intros j dj Hj Hdj. split.
    + rewrite Hy by lia. unfold X. by erewrite column_slide_S.
    + unfold vsub. rewrite lookup_zip_with, slide_d_S, Hdj, Hy
        by (done || lia).
      simpl. unfold X. by erewrite column_slide_S.
Qed.
End APMore.

(** ** The base class: constructor, missing rule, [pretrained_run] *)

Section BaseMore.
Context {F : Type} `{Numeric F}.

Lemma run_body_no_rule {R} d x k (s : self F R) :
  is_ok (run_body None d x k s).2 = false.
Proof.
  unfold run_body, predict, call_learning_rule. unfold_monad.
  repeat case_match; simplify_eq; done.
Qed.

Lemma ap_run_body_no_rule d x k (s : AdaptiveFilterAP.obj F) :
  is_ok (AdaptiveFilterAP.run_body None d x k s).2 = false.
Proof.
  unfold AdaptiveFilterAP.run_body, AdaptiveFilterAP.call_learning_rule,
    AdaptiveFilterAP.shift_x_mem, AdaptiveFilterAP.set_x_mem_col0,
    AdaptiveFilterAP.shift_d_mem, AdaptiveFilterAP.set_d_mem0.
  unfold_monad.
  repeat case_match; simplify_eq; done.
Qed.

(** X13: on an instance whose class defines no [learning_rule]
    ([AdaptiveFilter] and [AdaptiveFilterAP] themselves) [run] never
    returns a result, whatever the batch. *)
Theorem run_without_rule_never_returns :
  (∀ R (s : self F R) d x, is_ok (run None d x s).2 = false) ∧
  (∀ (s : AdaptiveFilterAP.obj F) d x,
      is_ok (AdaptiveFilterAP.run None d x s).2 = false).
Proof.
  split.
  - intros R s d x.
    destruct (decide (length d = length x)) as [Hl|Hl]; cycle 1.
    { by rewrite run_length_mismatch. }
    destruct (x !! 0) as [x0|] eqn:Hx0; cycle 1.
    { unfold run. rewrite Hl, Nat.eqb_refl. cbn [negb]. unfold_monad.
      by rewrite Hx0. }
    destruct (rectangular x) eqn:Hrect; cycle 1.
    { erewrite run_ragged; [done..|]. unfold np_array2. by rewrite Hrect. }
    erewrite run_validated by done.
    assert (0 < length x) as HN by (by eapply lookup_lt_Some).
    destruct (length x) as [|N]; [lia|]. cbn [seq run_loop].
    set (s0 := loop_entry x s).
    pose proof (run_body_no_rule d x 0 s0) as Hb.
    destruct (run_body None d x 0 s0) as [s1 [r|err]] eqn:Hbody; [done|].
    by rewrite (bind_raise _ _ _ _ _ (bind_raise _ _ _ _ _ Hbody)).
  - intros s d x.
    destruct (decide (length d = length x)) as [Hl|Hl]; cycle 1.
    { by rewrite ap_run_length_mismatch. }
    destruct (x !! 0) as [x0|] eqn:Hx0; cycle 1.
    { unfold AdaptiveFilterAP.run. rewrite Hl, Nat.eqb_refl. cbn [negb].
      unfold_monad. by rewrite Hx0. }
    destruct (rectangular x) eqn:Hrect; cycle 1.
    { erewrite ap_run_ragged; [done..|]. unfold np_array2. by rewrite Hrect. }
    erewrite ap_run_validated by done.
    assert (0 < length x) as HN by (by eapply lookup_lt_Some).
    destruct (length x) as [|N]; [lia|].
    cbn [seq AdaptiveFilterAP.run_loop].
    set (s0 := loop_entry x s).
    pose proof (ap_run_body_no_rule d x 0 s0) as Hb.
    destruct (AdaptiveFilterAP.run_body None d x 0 s0) as [s1 [r|err]]
      eqn:Hbody; [done|].
    by rewrite (bind_raise _ _ _ _ _ (bind_raise _ _ _ _ _ Hbody)).
Qed.

Lemma init_ok_fields (mu0 n0 : num F) (ws : weight_spec F) (f : self F unit) :
  sampler_sized →
  init mu0 n0 ws = Ok f →
  len_is (w f) (n f) = true ∧ mu f = mu0 ∧ n f = n0 ∧ w_history f = None.
Proof.
  intros Hsampler. unfold init, init_weights, rbind, len_is.
  destruct (num_eqb n0 (Int (-1))); [done|].
  assert (∀ (l : vec F) k, as_size n0 = Ok k → length l = k →
            num_eqb (Int (Z.of_nat (length l))) n0 = true) as Hsz.
  { intros l k Hk <-. destruct n0 as [z|]; [|done]. unfold as_size in Hk.
    destruct (Z.ltb_spec z 0); [done|]. injection Hk as Hk. simpl.
    apply Z.eqb_eq. lia. }
  destruct ws as [s|l|k0]; cbn [py_len np_array_float64].
  - unfold np_random_normal, np_zeros, rbind.
    destruct (as_size n0) as [k|] eqn:Hk; [|by repeat case_match].
    destruct (String.eqb s "random").
    + intros [= <-]. split_and!; try done. eapply Hsz; [done|apply Hsampler].
    + destruct (String.eqb s "zeros"); [|done]. intros [= <-].
      split_and!; try done. eapply Hsz; [done|].
      unfold zeros. apply length_replicate.
  - destruct (num_eqb _ n0) eqn:Hn; [|done]. by intros [= <-].
  - by destruct (num_eqb _ n0).
Qed.

(** X14: a filter [AdaptiveFilter.__init__] returns has [len(w) == n], the
    [mu] and [n] it was given and no history, whatever the weight
    specification. *)
Theorem init_weights_length (mu0 n0 : num F) (ws : weight_spec F)
    (f : self F unit) :
  sampler_sized →
  init mu0 n0 ws = Ok f →
  len_is (w f) (n f) = true ∧ mu f = mu0 ∧ n f = n0 ∧ w_history f = None.
Proof. apply init_ok_fields. Qed.

(** X15: the constructor raises AttributeError when [n == -1] (it reads
    [self.n] before setting it); otherwise it raises the ValueError
    "Impossible to understand the w" exactly when [w] is a sequence with
    [len(w) != n], a sequence that does not convert to an array of
    floats, or a string other than "random" and "zeros". *)
Theorem init_invalid_weight_spec (mu0 n0 : num F) (ws : weight_spec F) :
  (num_eqb n0 (Int (-1)) = true →
     init mu0 n0 ws = Raise (AttributeError "n")) ∧
  (num_eqb n0 (Int (-1)) = false →
     (init mu0 n0 ws = Raise InvalidWeightSpec ↔
        (∃ l, ws = WSeq l ∧ len_is l n0 = false) ∨
        (∃ k, ws = WOther k) ∨
        (∃ s, ws = WStr s ∧ String.eqb s "random" = false
                          ∧ String.eqb s "zeros" = false))).
Proof.
  unfold init, init_weights, rbind, len_is. split.
  - by intros ->.
  - intros ->. destruct ws as [s|l|k]; cbn [py_len np_array_float64].
    + unfold np_random_normal, np_zeros, rbind, as_size.
      destruct (String.eqb s "random") eqn:Hr;
        [|destruct (String.eqb s "zeros") eqn:Hz].
      * split;
          [|by intros [(? & ? & _)|[(? & ?)|(? & [= <-] & ? & _)]];
               congruence].
        destruct n0 as [z|]; [destruct (z <? 0)%Z|]; done.
      * split;
          [|by intros [(? & ? & _)|[(? & ?)|(? & [= <-] & ? & ?)]];
               congruence].
        destruct n0 as [z|]; [destruct (z <? 0)%Z|]; done.
      * split; [|done]. intros _. right. right. by exists s.
    + destruct (num_eqb _ n0) eqn:Hn.
      * split; [done|].
        by intros [(? & [= <-] & ?)|[(? & ?)|(? & ? & _)]]; congruence.
      * split; [|done]. intros _. left. by exists l.
    + split.
      * intros _. right. left. by exists k.
      * intros _. by destruct (num_eqb _ n0).
Qed.

Lemma slice_index_length {A B} (k : Z) (l1 : list A) (l2 : list B) :
  length l1 = length l2 → slice_index k l1 = slice_index k l2.
Proof. unfold slice_index. by intros ->. Qed.

Lemma slice_index_le {A} (k : Z) (l : list A) : slice_index k l ≤ length l.
Proof. unfold slice_index. lia. Qed.

(** X16: [pretrained_run] trains on a prefix of the batch and tests on the
    complementary suffix, for every [ntrain] (negative or above one
    included): the two parts of [d] and of [x] put end to end are [d] and
    [x], and when [len(d) = len(x)] the parts pair up. *)
Theorem pretrained_run_split {R A}
    (run : vec F → list (vec F) → M (self F R) A)
    (d : vec F) (x : list (vec F)) (ntrain : F) (epochs : Z) :
  ∃ d1 d2 x1 x2,
    d = d1 ++ d2 ∧ x = x1 ++ x2 ∧
    (length d = length x → length d1 = length x1 ∧ length d2 = length x2) ∧
    ∀ s, pretrained_run run d x ntrain epochs s =
           bind (repeat_m (Z.to_nat epochs) (run d1 x1)) (λ _, run d2 x2) s.
Proof.
  set (k := trunc (mul (of_Z (Z.of_nat (length d))) ntrain)).
  exists (slice_to k d), (slice_from k d), (slice_to k x), (slice_from k x).
  unfold slice_to, slice_from. rewrite !take_drop. split_and!; try done.
  - intros Hl. rewrite (slice_index_length k d x Hl).
    rewrite !length_take, !length_drop. lia.
  - intros s. unfold pretrained_run. fold k. unfold slice_to, slice_from.
    unfold bind. destruct (repeat_m _ _ s) as [s1 [[]|]]; [|done].
    by destruct (run _ _ s1) as [? []].
Qed.

Lemma repeat_m_raises {St A} (k : nat) (m : M St A) (s s' : St) err :
  m s = (s', Raise err) → repeat_m (S k) m s = (s', Raise err).
Proof. intros Hm. simpl. by rewrite (bind_raise _ _ _ _ _ Hm). Qed.

(** X17: [pretrained_run] does not guard an empty part.  When
    [int(N·ntrain)] is 0 and there is at least one epoch, the first
    training run gets an empty batch and the call raises IndexError with
    the filter untouched; when [int(N·ntrain)] is [N] or more, the
    training runs see the whole batch and the final run, on nothing,
    raises IndexError after them. *)
Theorem pretrained_run_empty_part {R}
    (rl : option (F → vec F → M (self F R) (vec F)))
    (d : vec F) (x : list (vec F)) (ntrain : F) (epochs : Z) (s : self F R) :
  length d = length x →
  let k := trunc (mul (of_Z (Z.of_nat (length d))) ntrain) in
  (k = 0%Z → (1 ≤ epochs)%Z →
     pretrained_run (run rl) d x ntrain epochs s = (s, Raise IndexError)) ∧
  ((Z.of_nat (length d) ≤ k)%Z →
     ∀ s1, repeat_m (Z.to_nat epochs) (run rl d x) s = (s1, Ok tt) →
       pretrained_run (run rl) d x ntrain epochs s = (s1, Raise IndexError)).
Proof.
  intros Hl k. split.
  - intros Hk He. unfold pretrained_run. fold k. rewrite Hk.
    unfold slice_to, slice_index. simpl.
    rewrite !Z.min_r by lia. change (Z.to_nat 0) with 0.
    rewrite !take_0.
    destruct (Z.to_nat epochs) as [|e] eqn:Hep; [lia|].
    unfold bind at 1.
    by rewrite (repeat_m_raises e (run rl [] []) s s IndexError).
  - intros Hk s1 Htrain. unfold pretrained_run. fold k.
    assert (slice_index k d = length d) as Hd
      by (unfold slice_index; destruct (Z.ltb_spec k 0); lia).
    assert (slice_index k x = length x) as Hx
      by (rewrite <- (slice_index_length k d x Hl); lia).
    unfold slice_to, slice_from. rewrite Hd, Hx.
    rewrite !take_ge, !drop_ge by lia.
    by rewrite (bind_eq _ _ _ _ _ Htrain).
Qed.
End BaseMore.

Section GNGDMore.
Context {F : Type} `{Numeric F}.
Import FilterGNGD.

Local Abbreviation rule := (Some FilterGNGD.learning_rule).

Lemma rectangular_all (x : list (vec F)) (x0 : vec F) :
  rectangular x = true → x !! 0 = Some x0 →
  Forall (λ xi, length xi = length x0) x.
Proof.
  intros Hrect Hx0. apply Forall_lookup. intros i xi Hi.
  exact (rectangular_rows x x0 Hrect Hx0 i xi Hi).
Qed.

(** X18: with one epoch and both parts non-empty, [pretrained_run] on a
    GNGD filter returns the tail of what [run] returns on the whole batch
    (outputs, errors and history from sample [int(N·ntrain)] on) and leaves
    the filter [run] leaves, but for [w_history], which holds the tail
    only. *)
Theorem gngd_pretrained_run_tail (f f' : obj F) (d y e : vec F)
    (x : list (vec F)) (h : matrix F) (ntrain : F) :
  run d x f = (f', Ok (y, e, h)) →
  let k := slice_index (trunc (mul (of_Z (Z.of_nat (length d))) ntrain)) d in
  0 < k < length d →
  FilterGNGD.pretrained_run d x ntrain 1 f =
    (set_w_history (Some (drop k h)) f',
     Ok (drop k y, drop k e, drop k h)).
Proof.
  intros Hr k Hk.
  destruct (gngd_run_ok_valid _ _ _ _ _ _ _ Hr) as (Hl & Hrect & x0 & Hx0).
  pose proof (rectangular_all x x0 Hrect Hx0) as Hall.
  eapply gngd_run_steps in Hr as (g & tr & Hst & -> & -> & -> & ->);
    [|done..].
  rewrite <- (take_drop k d), <- (take_drop k x) in Hst.
  apply sample_steps_app in Hst as (g1 & tr1 & tr2 & H1 & H2 & ->);
    [|rewrite !length_take; lia].
  assert (length tr1 = k) as Hk1.
  { rewrite (sample_steps_length _ _ _ _ _ _ H1), !length_take. lia. }
  destruct (lookup_lt_is_Some_2 x k) as [a2 Ha2]; [lia|].
  assert (length a2 = length x0) as Hla2
    by exact (rectangular_rows x x0 Hrect Hx0 k a2 Ha2).
  assert (run (take k d) (take k x) f =
            (with_run_fields (Int (Z.of_nat (length x0)))
               (Some (trace_w tr1)) g1,
             Ok (trace_y tr1, trace_e tr1, trace_w tr1))) as Hrun1.
  { eapply (gngd_run_steps _ _ _ _ _ _ _ x0).
    - rewrite !length_take. lia.
    - rewrite lookup_take_lt by lia. done.
    - apply (rectangular_Forall (length x0)). by apply Forall_take.
    - by exists g1, tr1. }
  assert (run (drop k d) (drop k x)
            (with_run_fields (Int (Z.of_nat (length x0)))
               (Some (trace_w tr1)) g1) =
            (with_run_fields (Int (Z.of_nat (length x0)))
               (Some (trace_w tr2)) g,
             Ok (trace_y tr2, trace_e tr2, trace_w tr2))) as Hrun2.
  { eapply (gngd_run_steps _ _ _ _ _ _ _ a2).
    - rewrite !length_drop. lia.
    - rewrite lookup_drop, Nat.add_0_r. done.
    - apply (rectangular_Forall (length x0)). by apply Forall_drop.
    - exists (with_run_fields (Int (Z.of_nat (length x0)))
                (Some (trace_w tr1)) g), tr2.
      split_and!; [|by rewrite Hla2|done..].
      by apply gngd_sample_steps_frame. }
  unfold FilterGNGD.pretrained_run, AdaptiveFilter.pretrained_run.
  cbv zeta. unfold slice_to, slice_from.
  rewrite <- (slice_index_length _ d x Hl). fold k.
  change (Z.to_nat 1) with 1. cbn [repeat_m].
  unfold bind, ret. rewrite Hrun1. rewrite Hrun2.
  unfold trace_y, trace_e, trace_w. rewrite !fmap_app.
  rewrite !drop_app_length' by (by rewrite length_fmap).
  reflexivity.
Qed.

(** X19: what [FilterGNGD.__init__] builds.  The weights have the length
    given as [mu] and the remembered input the length given as [n] (the two
    arguments reach the base constructor in swapped positions); when the
    two lengths differ, no call of [run] on the new filter returns. *)
Theorem gngd_init_sizes (n0 mu0 : num F) (ep r : F)
    (kw : option (weight_spec F)) (f : obj F) :
  sampler_sized →
  FilterGNGD.init n0 mu0 ep r kw = Ok f →
  len_is (w f) mu0 = true ∧
  as_size n0 = Ok (length (last_x (ext f))) ∧
  eps (ext f) = ep ∧ ro (ext f) = r ∧ last_e (ext f) = zero ∧
  (length (w f) ≠ length (last_x (ext f)) →
     ∀ d x, is_ok (run d x f).2 = false).
Proof.
  intros Hsampler. unfold FilterGNGD.init, rbind.
  destruct (AdaptiveFilter.init n0 mu0 _) as [b|] eqn:Hb; [|done].
  apply (init_ok_fields _ _ _ _ Hsampler) in Hb as (Hw & _ & Hn & _).
  unfold np_zeros, rbind.
  destruct (as_size n0) as [a|] eqn:Ha; [|done]. intros [= <-].
  cbn [ext set_ext w last_x eps ro last_e].
  rewrite Hn in Hw. unfold zeros. rewrite length_replicate.
  split_and!; try done.
  intros Hne d x.
  destruct (run d x _) as [f' [[[y e] h]|err]] eqn:Hr; [|done]. exfalso.
  destruct (gngd_run_ok_valid _ _ _ _ _ _ _ Hr) as (Hl & Hrect & x0 & Hx0).
  eapply gngd_run_steps in Hr as (g & tr & Hst & _); [|done..].
  destruct x as [|xk x']; [done|]. destruct d as [|dk d']; [done|].
  injection Hx0 as ->.
  apply sample_steps_cons in Hst as (g1 & r1 & tr' & Hs1 & _).
  apply gngd_sample_step_shapes in Hs1 as [Hw1 Hx1].
  cbn [ext set_ext w last_x] in Hw1, Hx1.
  rewrite length_replicate in Hx1. apply Hne. congruence.
Qed.
End GNGDMore.

Section MoreEvaluations.
Import Samples MoreSamples.
Local Open Scope Q_scope.

Local Abbreviation gngd_rule := (Some FilterGNGD.learning_rule).

(** The further sample filters are what the constructors return, and the
    sampler of the exact arithmetic draws as many values as asked. *)
Lemma more_samples_constructed :
  AdaptiveFilterAP.init (Float (1 # 10)) (Int 2) (WSeq [0; 0]) (Int 2) 0
    = Ok ap_sing ∧
  FilterGNGD.init (Int 3) (Int 2) 1 (1 # 10) (Some (WSeq [0; 0]))
    = Ok gngd_3_2 ∧
  AdaptiveFilter.init (Float (1 # 10)) (Int 2) (WStr "zeros") = Ok base0.
Proof. split_and!; reflexivity. Qed.

Lemma exact_sampler_sized : sampler_sized (F := Q).
Proof. intros loc sc k. apply length_replicate. Qed.

Lemma ap_sing_wf : ap_wf ap_sing.
Proof. by eapply ap_init_wf, more_samples_constructed. Qed.

Lemma gngd0_runs :
  FilterGNGD.run d2 x2 gngd0 = (gngd0_run, Ok (y2, e2, h2)) ∧
  FilterGNGD.run [3; 1] x2 gngd0_run
    = (gngd0_pretrained, Ok ([1; 2], [2; -1], [[1; 2]; [3; 2]])) ∧
  FilterGNGD.run d4 x4 gngd0 = (gngd0_run4, Ok (y4, e4, h4)).
Proof. split_and!; vm_compute; reflexivity. Qed.

Lemma ap0_adapts :
  AdaptiveFilterAP.adapt 1 [1; 0] ap0 = (ap1, Ok tt) ∧
  AdaptiveFilterAP.adapt_all d2 x2 ap0 = (ap2, Ok tt).
Proof. split; vm_compute; reflexivity. Qed.

(** [run(d2, x2)] on [gngd0] is two passes of predict, rule and update. *)
Lemma gngd_run_is_sample_steps_witness :
  ∃ g tr, sample_steps gngd_rule d2 x2 gngd0 = (g, Ok tr) ∧
          trace_y tr = y2 ∧ trace_e tr = e2 ∧ trace_w tr = h2.
Proof.
  destruct (proj1 (gngd_run_is_sample_steps gngd0 gngd0_run d2 y2 e2 x2 h2
                     [1; 0] eq_refl eq_refl eq_refl) (proj1 gngd0_runs))
    as (g & tr & Hs & _ & Hy & He & Hh).
  exists g, tr. split_and!; [exact Hs|symmetry; assumption..].
Defined.

(** The outputs of [run(d2, x2)] on [gngd0], sample by sample. *)
Lemma gngd_run_outputs_witness :
  length y2 = length x2 ∧ length e2 = length x2 ∧ length h2 = length x2 ∧
  ∃ hk xk dk, h2 !! 1%nat = Some hk ∧ x2 !! 1%nat = Some xk ∧
              d2 !! 1%nat = Some dk ∧ y2 !! 1%nat = Some (vdot hk xk).
Proof.
  destruct (gngd_run_outputs gngd0 gngd0_run d2 y2 e2 x2 h2 (proj1 gngd0_runs))
    as (Hy & He & Hh & Hk).
  split_and!; [assumption..|].
  destruct (Hk 1%nat) as (hk & xk & dk & H1 & H2 & H3 & H4 & _);
    [simpl; lia|].
  by exists hk, xk, dk.
Defined.

(** [gngd0] has two weights and [x2] has rows of two cells: [run]
    returns. *)
Lemma gngd_run_total_witness :
  gngd_sized 2 gngd0 ∧
  ∃ f' y e h, FilterGNGD.run d2 x2 gngd0 = (f', Ok (y, e, h)) ∧
              gngd_sized 2 f' ∧ n f' = Int 2.
Proof.
  assert (gngd_sized 2 gngd0) as Hs by (split; reflexivity).
  split; [exact Hs|].
  apply (gngd_run_total 2 gngd0 d2 x2 Hs).
  - simpl. lia.
  - reflexivity.
  - repeat constructor.
Defined.

(** What [run(d2, x2)] leaves in [gngd0]. *)
Lemma gngd_run_final_state_witness :
  w_history gngd0_run = Some h2 ∧ n gngd0_run = Int 2 ∧
  FilterGNGD.last_x (ext gngd0_run) = [0; 1] ∧
  last e2 = Some (FilterGNGD.last_e (ext gngd0_run)).
Proof.
  destruct (gngd_run_final_state gngd0 gngd0_run d2 y2 e2 x2 h2 [0; 1]
              (proj1 gngd0_runs) eq_refl)
    as (Hh & Hn & _ & _ & _ & Hx & He).
  split_and!; assumption.
Defined.

(** [run(d4, x4)] on [gngd0] is [run(d2, x2)] followed by a run on the
    last two samples. *)
Lemma gngd_run_app_witness :
  FilterGNGD.run d4 x4 gngd0 =
    (set_w_history (Some h4) gngd0_pretrained, Ok (y4, e4, h4)).
Proof.
  exact (gngd_run_app gngd0 gngd0_run gngd0_pretrained d2 [3; 1] y2 [1; 2]
           e2 [2; -1] x2 x2 h2 [[1; 2]; [3; 2]] [1; 0] [1; 0]
           eq_refl eq_refl eq_refl
           (proj1 gngd0_runs) (proj1 (proj2 gngd0_runs))).
Defined.

(** A row of three cells given to [gngd0], which has two weights. *)
Lemma gngd_run_shape_mismatch_witness :
  ¬ gngd_sized 3 gngd0 ∧
  ∃ s' err, FilterGNGD.run [1] [[1; 0; 0]] gngd0 = (s', Raise err) ∧
            w s' = w gngd0 ∧ ext s' = ext gngd0.
Proof.
  assert (¬ gngd_sized 3 gngd0) as Hn by (intros [Hw _]; discriminate Hw).
  split; [exact Hn|].
  destruct (gngd_run_shape_mismatch gngd0 [1] [[1; 0; 0]] [1; 0; 0]
              eq_refl eq_refl eq_refl Hn)
    as (s' & err & Hr & _ & Hw & He).
  by exists s', err.
Defined.

(** [ap0] is well shaped with an all-zero window. *)
Lemma ap_init_shapes_witness :
  ap_wf ap0 ∧
  AdaptiveFilterAP.x_mem (ext ap0) = zeros2 2 2 ∧
  AdaptiveFilterAP.d_mem (ext ap0) = zeros 2.
Proof.
  destruct (ap_init_shapes (Float (1 # 10)) (Int 2) (Int 2) (WSeq [0; 0])
              (1 # 1000) ap0 exact_sampler_sized (proj2 samples_constructed))
    as (Hwf & _ & HX & Hd & _).
  split_and!; assumption.
Defined.

(** Two calls of [adapt] on [ap0] leave a well-shaped filter of the same
    order. *)
Lemma ap_adapt_all_keeps_shapes_witness :
  ap_wf ap2 ∧
  AdaptiveFilterAP.order (ext ap2) = AdaptiveFilterAP.order (ext ap0).
Proof.
  assert (1 ≤ AdaptiveFilterAP.order (ext ap0))%nat as Ho by (simpl; lia).
  assert (Forall (λ xk : vec Q,
            length xk = length (AdaptiveFilterAP.x_mem (ext ap0))) x2) as Hx
    by (repeat constructor).
  destruct (ap_adapt_all_keeps_shapes d2 x2 ap0 ap2 ap0_wf Ho Hx
              (proj2 ap0_adapts)) as (Hwf & Hord & _).
  split; assumption.
Defined.

(** Without regularisation the first system is singular: [adapt] raises
    what the solver raises and the weights stay. *)
Lemma ap_adapt_solver_failure_witness :
  AdaptiveFilterAP.adapt 1 [1; 0] ap_sing
    = (ap_window 1 [1; 0] ap_sing, Raise LinAlgError) ∧
  w (ap_window 1 [1; 0] ap_sing) = w ap_sing.
Proof.
  assert (1 ≤ AdaptiveFilterAP.order (ext ap_sing))%nat as Ho
    by (simpl; lia).
  pose proof (ap_adapt_solver_failure 1 [1; 0] ap_sing ap_sing_wf Ho eq_refl)
    as Hs.
  cbv zeta in Hs. destruct Hs as [_ Hs].
  destruct (Hs LinAlgError) as (Had & Hw & _).
  - vm_compute. reflexivity.
  - split; assumption.
Defined.

(** After two calls on [ap0], [d_mem] holds the two targets, newest
    first. *)
Lemma ap_window_targets_witness :
  AdaptiveFilterAP.d_mem (ext ap2) !! 0%nat = d2 !! 1%nat ∧
  AdaptiveFilterAP.d_mem (ext ap2) !! 1%nat = d2 !! 0%nat.
Proof.
  assert (1 ≤ AdaptiveFilterAP.order (ext ap0))%nat as Ho by (simpl; lia).
  assert (Forall (λ xk : vec Q,
            length xk = length (AdaptiveFilterAP.x_mem (ext ap0))) x2) as Hx
    by (repeat constructor).
  assert (AdaptiveFilterAP.order (ext ap0) ≤ length d2)%nat as Hm
    by (simpl; lia).
  pose proof (ap_window_targets ap0 ap2 d2 x2 ap0_wf Ho eq_refl Hx Hm
                (proj2 ap0_adapts)) as Ht.
  split.
  - apply (Ht 0%nat). simpl. lia.
  - apply (Ht 1%nat). simpl. lia.
Defined.

(** The first call of [adapt] on [ap0]: output 0 and error 1 in cell 0. *)
Lemma ap_adapt_outputs_witness :
  ∃ y e, AdaptiveFilterAP.y_mem (ext ap1) = Some y ∧
         AdaptiveFilterAP.e_mem (ext ap1) = Some e ∧
         y !! 0%nat = Some (vdot [1; 0] (w ap0)) ∧
         e !! 0%nat = Some (sub 1 (vdot [1; 0] (w ap0))).
Proof.
  assert (1 ≤ AdaptiveFilterAP.order (ext ap0))%nat as Ho by (simpl; lia).
  destruct (ap_adapt_outputs 1 [1; 0] ap0 ap1 ap0_wf Ho eq_refl
              (proj1 ap0_adapts))
    as (y & e & Hy & He & _ & _ & Hy0 & He0 & _).
  by exists y, e.
Defined.

(** [AdaptiveFilter(mu=0.1, n=2, w="zeros")] has two weights. *)
Lemma init_weights_length_witness :
  len_is (w base0) (n base0) = true ∧ mu base0 = Float (1 # 10) ∧
  n base0 = Int 2 ∧ w_history base0 = None.
Proof.
  exact (init_weights_length (Float (1 # 10)) (Int 2) (WStr "zeros") base0
           exact_sampler_sized (proj2 (proj2 more_samples_constructed))).
Defined.

(** [pretrained_run(d2, x2, ntrain=0)] on [gngd0]: nothing to train on. *)
Lemma pretrained_run_empty_part_witness :
  FilterGNGD.pretrained_run d2 x2 0 1 gngd0 = (gngd0, Raise IndexError).
Proof.
  pose proof (pretrained_run_empty_part gngd_rule d2 x2 0 1 gngd0 eq_refl)
    as Hp.
  cbv zeta in Hp. destruct Hp as [Hp _].
  apply Hp; [vm_compute; reflexivity|lia].
Defined.

(** [pretrained_run(d4, x4, 0.5, 1)] on [gngd0] returns the second half of
    what [run(d4, x4)] returns. *)
Lemma gngd_pretrained_run_tail_witness :
  FilterGNGD.pretrained_run d4 x4 (1 # 2) 1 gngd0 =
    (set_w_history (Some (drop 2 h4)) gngd0_run4,
     Ok (drop 2 y4, drop 2 e4, drop 2 h4)).
Proof.
  pose proof (gngd_pretrained_run_tail gngd0 gngd0_run4 d4 y4 e4 x4 h4
                (1 # 2) (proj2 (proj2 gngd0_runs))) as Hp.
  cbv zeta in Hp. apply Hp. vm_compute. lia.
Defined.

(** [FilterGNGD(n=3, mu=2, w=[0, 0])] is constructed, with two weights and
    a remembered input of three cells; [run] on it never returns. *)
Lemma gngd_init_sizes_witness :
  length (w gngd_3_2) = 2%nat ∧
  length (FilterGNGD.last_x (ext gngd_3_2)) = 3%nat ∧
  ∀ d x, is_ok (FilterGNGD.run d x gngd_3_2).2 = false.
Proof.
  destruct (gngd_init_sizes (Int 3) (Int 2) 1 (1 # 10) (Some (WSeq [0; 0]))
              gngd_3_2 exact_sampler_sized
              (proj1 (proj2 more_samples_constructed)))
    as (_ & _ & _ & _ & _ & Hrun).
  split_and!; [reflexivity..|].
  apply Hrun. simpl. lia.
Defined.
End MoreEvaluations.
